(** * JunkHub backend: orders, wishlist, authentication gate, notifications

    A shallow embedding of the request handlers of the JunkHub REST
    backend (Express + Prisma) and the properties of its specification.

    - The relational store is a record of finite maps keyed by record id.
    - A handler is a function in a state-and-exception monad over the
      store: it either goes on ([Next]), has sent its response ([Sent]),
      or has thrown ([Thrown]).  Writes made before a throw stay in the
      store: the source opens no transaction.
    - JavaScript numbers are binary64 floats ([float]); integer columns
      (stock, quantity) are [Z].
    - A JavaScript string is held as the UTF-8 bytes of its text.
    - A request body is typed: its fields have the JSON types the route
      is written for.  Where the route lets another type through (a
      quantity sent as a string), the body as it comes over the wire is
      modelled beside the typed one.
    - What the process takes from outside (token verification, the
      outcome of a notification write, the clock, the random source,
      locale formatting, JSON parsing) is collected in [Env] and
      [Ambient]. *)

From Stdlib Require Import Floats ZArith Ascii String List Lia.
From stdpp Require Import gmap strings list stringmap.

Open Scope Z_scope.

(** ** JavaScript strings *)

Module Js.

(** [!!s] on a string: only the empty string is falsy. *)
Definition truthy (s : string) : bool := negb (String.eqb s "").

(** [o && truthy] for a nullable string. *)
Definition truthy_opt (o : option string) : bool :=
  match o with Some s => truthy s | None => false end.

(** [s.substring(a, b)] for [a <= b]. *)
Definition substring (a b : nat) (s : string) : string :=
  String.substring a (b - a) s.

(** [s.slice(-n)]: the last [n] characters, or all of [s] when shorter
    (on ASCII text, as record identifiers are). *)
Definition slice_last (n : nat) (s : string) : string :=
  String.substring (String.length s - n) n s.

(** [s.slice(n)]. *)
Definition slice_from (n : nat) (s : string) : string :=
  String.substring n (String.length s - n) s.

Definition upper_ascii (c : ascii) : ascii :=
  let n := nat_of_ascii c in
  if ((97 <=? n)%nat && (n <=? 122)%nat)%bool
  then ascii_of_nat (n - 32) else c.

(** [s.toUpperCase()] on ASCII text. *)
Fixpoint toUpperCase (s : string) : string :=
  match s with
  | EmptyString => EmptyString
  | String c r => String (upper_ascii c) (toUpperCase r)
  end.

(** [s.replace(/-/g, "")]. *)
Fixpoint remove_dashes (s : string) : string :=
  match s with
  | EmptyString => EmptyString
  | String c r =>
      if Ascii.eqb c "-" then remove_dashes r
      else String c (remove_dashes r)
  end.

(** [s.charAt(0).toUpperCase() + s.slice(1)], for a string that begins
    with an ASCII character. *)
Definition capitalize (s : string) : string :=
  match s with
  | EmptyString => EmptyString
  | String c r => String (upper_ascii c) r
  end.

(** [s.startsWith(p)]. *)
Definition startsWith (p s : string) : bool := String.prefix p s.

(** A string of bytes from their codes. *)
Definition of_bytes (codes : list nat) : string :=
  string_of_list_ascii (map ascii_of_nat codes).

(** The characters the regular expression [\s] matches, the white space
    and the line terminators of JavaScript, each as its UTF-8 bytes:
    TAB, LF, VT, FF, CR, SP, U+00A0, U+1680, U+2000 to U+200A, U+2028,
    U+2029, U+202F, U+205F, U+3000 and U+FEFF. *)
Definition white_space : list string :=
  map of_bytes
    [ [9]; [10]; [11]; [12]; [13]; [32];
      [194; 160];
      [225; 154; 128];
      [226; 128; 128]; [226; 128; 129]; [226; 128; 130]; [226; 128; 131];
      [226; 128; 132]; [226; 128; 133]; [226; 128; 134]; [226; 128; 135];
      [226; 128; 136]; [226; 128; 137]; [226; 128; 138];
      [226; 128; 168]; [226; 128; 169];
      [226; 128; 175];
      [226; 129; 159];
      [227; 128; 128];
      [239; 187; 191] ]%nat.

(** The rest of [s] after the prefix [p], if [s] starts with it. *)
Fixpoint after_prefix (p s : string) : option string :=
  match p, s with
  | EmptyString, _ => Some s
  | String a p', String b s' =>
      if Ascii.eqb a b then after_prefix p' s' else None
  | String _ _, EmptyString => None
  end.

(** The rest of [s] after one leading white space character. *)
Definition after_space (s : string) : option string :=
  head (omap (fun w => after_prefix w s) white_space).

Fixpoint ltrim_from (fuel : nat) (s : string) : string :=
  match fuel with
  | O => s
  | S fuel =>
      match after_space s with
      | Some rest => ltrim_from fuel rest
      | None => s
      end
  end.

(** [s.replace(/^\s+/g, "")]: the leading white space is dropped, one
    character at a time; a string has no more characters than bytes. *)
Definition ltrim (s : string) : string := ltrim_from (String.length s) s.

(** The validator's [rtrim]: the characters are dropped from the end as
    long as they are white space, that is, the longest end of [s] that
    is white space only is cut off. *)
Fixpoint rtrim (s : string) : string :=
  match s with
  | EmptyString => EmptyString
  | String c r =>
      if String.eqb (ltrim s) "" then EmptyString else String c (rtrim r)
  end.

(** The validator's [trim()] sanitizer. *)
Definition trim (s : string) : string := rtrim (ltrim s).

(** [new Set()] keeps insertion order; [set.add(x)]. *)
Definition Set_add (x : string) (l : list string) : list string :=
  if bool_decide (x ∈ l) then l else l ++ [x].

(** The number a JSON integer denotes: the binary64 number nearest to
    it (ties to even; infinite beyond the range). *)
Definition Number_of_int (z : Z) : float :=
  SF2Prim (binary_normalize prec emax z 0 false).

End Js.

(** ** HTTP responses *)

(** The JSON bodies the modelled routes send. *)
Inductive Json :=
| JError (error : string)
| JErrorCode (error code : string)
| JErrorReceipt (error receiptNumber : string)
| JErrorField (error field : string)
| JValidation (error : string) (messages : list string)
| JOrder (id : string) (total : float) (orderStatus : string)
    (receiptNumber : option string)
| JConfirmed (message receiptNumber id : string)
| JWishlist (wishlist : list string)
| JProduct (message id productStatus : string).

Record Response := { status : Z; json : Json }.

(** A thrown JavaScript error, with the fields [errorHandler] reads. *)
Record JsError := {
  err_code : option string;
  err_name : string;
  err_message : string;
  err_statusCode : option Z;
  err_target : option string
}.

(** Global error handling middleware. *)
Definition errorHandler (err : JsError) : Response :=
  if bool_decide (err_code err = Some "P2002") then
    {| status := 400;
       json := JErrorField "A record with this value already exists"
                 (if Js.truthy_opt (err_target err)
                  then default "unknown" (err_target err) else "unknown") |}
  else if bool_decide (err_code err = Some "P2025") then
    {| status := 404; json := JError "Record not found" |}
  else if bool_decide (err_name err = "ValidationError") then
    {| status := 400; json := JError (err_message err) |}
  else if bool_decide (err_name err = "JsonWebTokenError") then
    {| status := 401; json := JError "Invalid token" |}
  else if bool_decide (err_name err = "TokenExpiredError") then
    {| status := 401; json := JError "Token expired" |}
  else
    {| status := match err_statusCode err with
                 | Some c => if c =? 0 then 500 else c
                 | None => 500
                 end;
       json := JError (if Js.truthy (err_message err) then err_message err
                       else "Internal server error") |}.

(** ** The relational store *)

Record Product := {
  p_name : string;
  p_price : float;
  p_stock : Z;
  p_shopId : string;
  p_status : string
}.

Record Shop := { shop_name : string; shop_ownerId : string }.

(** The [wishlist] column of a user: a JSON value that the seed writes as
    a string and the toggle writes as an array. *)
Inductive WishlistValue :=
| WNull
| WString (s : string)
| WArray (ids : list string).

Record User := { u_email : string; u_wishlist : WishlistValue }.

Record Owner := {
  o_email : string;
  o_businessName : string;
  o_approved : bool
}.

Record Admin := { a_email : string; a_name : string; a_role : string }.

Record OrderItem := {
  oi_productId : string;
  oi_quantity : Z;
  oi_price : float
}.

Record Order := {
  ord_userId : string;
  ord_total : float;
  ord_status : string;
  ord_receiptNumber : option string;
  ord_completedAt : option string;
  ord_shippingAddress : string;
  ord_shippingCity : string;
  ord_shippingZip : string;
  ord_items : list OrderItem
}.

Record Notification := {
  n_userId : option string;
  n_ownerId : option string;
  n_adminId : option string;
  n_type : string;
  n_title : string;
  n_message : string;
  n_link : string
}.

Record Store := {
  users : gmap string User;
  owners : gmap string Owner;
  admins : gmap string Admin;
  shops : gmap string Shop;
  products : gmap string Product;
  orders : gmap string Order;
  notifications : list Notification
}.

Definition set_users (f : gmap string User → gmap string User) (s : Store) : Store :=
  {| users := f (users s); owners := owners s; admins := admins s;
     shops := shops s; products := products s; orders := orders s;
     notifications := notifications s |}.

Definition set_products (f : gmap string Product → gmap string Product) (s : Store) : Store :=
  {| users := users s; owners := owners s; admins := admins s;
     shops := shops s; products := f (products s); orders := orders s;
     notifications := notifications s |}.

Definition set_orders (f : gmap string Order → gmap string Order) (s : Store) : Store :=
  {| users := users s; owners := owners s; admins := admins s;
     shops := shops s; products := products s; orders := f (orders s);
     notifications := notifications s |}.

Definition set_notifications (f : list Notification → list Notification) (s : Store) : Store :=
  {| users := users s; owners := owners s; admins := admins s;
     shops := shops s; products := products s; orders := orders s;
     notifications := f (notifications s) |}.

(** ** What the process takes from outside *)

(** The payload of a verified token. *)
Record Decoded := { d_id : string; d_email : string; d_role : string }.

Record Env := {
  (** [jwt.verify(token, secret)]; [None] when it throws. *)
  verifyToken : string → option Decoded;
  (** The error the database answers to the insertion of a notification
      row, if it refuses it. *)
  notification_fault : Notification → option JsError;
  (** [Number.prototype.toLocaleString]. *)
  toLocaleString : float → string;
  (** [JSON.parse] followed by [Array.isArray]: the array of ids a string
      denotes, [None] when parsing throws or yields something else. *)
  JSON_parse_array : string → option (list string)
}.

(** Per request: the clock and the random source. *)
Record Ambient := {
  (** [new Date().toISOString()] *)
  now_iso : string;
  (** [Math.random().toString(36)] *)
  random36 : string
}.

Record Request := {
  cookies_token : option string;
  headers_authorization : option string
}.

(** ** Handlers: state and exceptions over the store *)

Inductive outcome (A : Type) :=
| Next (a : A)
| Sent (r : Response)
| Thrown (e : JsError).
Arguments Next {A} a.
Arguments Sent {A} r.
Arguments Thrown {A} e.

Definition action (A : Type) : Type := Store → outcome A * Store.

Definition ret {A} (a : A) : action A := fun s => (Next a, s).

Definition bind {A B} (m : action A) (k : A → action B) : action B :=
  fun s =>
    match m s with
    | (Next a, s') => k a s'
    | (Sent r, s') => (Sent r, s')
    | (Thrown e, s') => (Thrown e, s')
    end.

(** [return res.status(code).json(body)] *)
Definition send {A} (code : Z) (body : Json) : action A :=
  fun s => (Sent {| status := code; json := body |}, s).

Definition throw {A} (e : JsError) : action A := fun s => (Thrown e, s).

(** [try { m } catch (error) { h error }] *)
Definition try_catch {A} (m : action A) (h : JsError → action A) : action A :=
  fun s =>
    match m s with
    | (Thrown e, s') => h e s'
    | r => r
    end.

Definition read {A} (f : Store → A) : action A := fun s => (Next (f s), s).

Definition write (f : Store → Store) : action unit := fun s => (Next tt, f s).

#[global] Instance action_ret : MRet action := @ret.
#[global] Instance action_bind : MBind action := fun A B k m => bind m k.

(** A route handler ends by sending a response; one that throws is
    passed to [errorHandler] ([catch (error) { next(error) }]). *)
Definition respond (m : action Empty_set) (s : Store) : Response * Store :=
  match m s with
  | (Next v, _) => match v with end
  | (Sent r, s') => (r, s')
  | (Thrown e, s') => (errorHandler e, s')
  end.

(** ** Request bodies and their validation chains *)

(** A line item whose quantity was sent as a number, an integer; what
    the route makes of a quantity sent as a string is modelled on the
    body as it comes over the wire, further down. *)
Record LineItem := { li_productId : string; li_quantity : Z }.

Record OrderBody := {
  items : list LineItem;
  shippingAddress : string;
  shippingCity : string;
  shippingZip : string
}.

(** The messages of the rules of [POST /api/orders] that fail. *)
Definition createOrderValidation (b : OrderBody) : list string :=
  (if bool_decide (items b = []) then ["Order must have at least one item"] else [])
  ++ flat_map (fun it => if Js.truthy (li_productId it) then []
                         else ["Product ID is required"]) (items b)
  ++ flat_map (fun it => if (1 <=? li_quantity it)
                               && (li_quantity it <? 1000000000000000000000)
                            then []
                            else ["Quantity must be at least 1"]) (items b)
  ++ (if Js.truthy (Js.trim (shippingAddress b)) then []
      else ["Shipping address is required"])
  ++ (if Js.truthy (Js.trim (shippingCity b)) then []
      else ["Shipping city is required"])
  ++ (if Js.truthy (Js.trim (shippingZip b)) then []
      else ["Shipping ZIP is required"]).

(** The body after the [trim()] sanitizers have run. *)
Definition sanitize (b : OrderBody) : OrderBody :=
  {| items := items b;
     shippingAddress := Js.trim (shippingAddress b);
     shippingCity := Js.trim (shippingCity b);
     shippingZip := Js.trim (shippingZip b) |}.

(** The status values [PUT /api/orders/:id/status] lets through. *)
Definition accepted_statuses : list string :=
  ["pending"; "processing"; "shipped"; "delivered"; "cancelled"].

Definition updateStatusValidation (status : string) : list string :=
  if bool_decide (status ∈ accepted_statuses) then [] else ["Invalid status"].

Definition wishlistValidation (productId : string) : list string :=
  if Js.truthy productId then [] else ["Product ID is required"].

(** Middleware to check validation results. *)
Definition validate (errors : list string) : action unit :=
  match errors with
  | [] => ret tt
  | _ => send 400 (JValidation "Validation failed" errors)
  end.

(** ** Loops *)

(** [for (const x of l) { acc = body(acc, x) }]; a [return res...] or a
    throw in the body leaves the loop. *)
Fixpoint for_of {A S : Type} (l : list A) (body : S → A → action S) (acc : S)
  : action S :=
  match l with
  | [] => ret acc
  | x :: rest => acc' ← body acc x; for_of rest body acc'
  end.

(** ** Store operations (the ORM calls the handlers make) *)

Definition record_not_found : JsError :=
  {| err_code := Some "P2025"; err_name := "PrismaClientKnownRequestError";
     err_message := "Record to update not found."; err_statusCode := None;
     err_target := None |}.

(** Reading the property [property] of [null]. *)
Definition type_error (property : string) : JsError :=
  {| err_code := None; err_name := "TypeError";
     err_message := "Cannot read properties of null (reading '" +:+ property
                      +:+ "')";
     err_statusCode := None; err_target := None |}.

Definition jwt_error : JsError :=
  {| err_code := None; err_name := "JsonWebTokenError";
     err_message := "invalid token"; err_statusCode := None;
     err_target := None |}.

(** [prisma.product.update({ where: { id }, data })] *)
Definition product_update (id : string) (f : Product → Product) : action Product :=
  fun s =>
    match products s !! id with
    | Some p => (Next (f p), set_products (insert id (f p)) s)
    | None => (Thrown record_not_found, s)
    end.

(** [prisma.order.update({ where: { id }, data })] *)
Definition order_update (id : string) (f : Order → Order) : action Order :=
  fun s =>
    match orders s !! id with
    | Some o => (Next (f o), set_orders (insert id (f o)) s)
    | None => (Thrown record_not_found, s)
    end.

(** [prisma.user.update({ where: { id }, data })] *)
Definition user_update (id : string) (f : User → User) : action User :=
  fun s =>
    match users s !! id with
    | Some u => (Next (f u), set_users (insert id (f u)) s)
    | None => (Thrown record_not_found, s)
    end.

(** Modelled from the spec: the Prisma schema is not among the sources;
    the status a new order gets is the first of the progression
    "pending, processing, shipped, delivered, completed" of the data
    model, and its receipt identifier is absent until completion. *)
Definition default_order_status : string := "pending".

(** [prisma.order.create({ data, include: { items: { include: { product } } } })]:
    the ORM gives the row an identifier no other order has, and returns
    the items with the products they name as they are at that moment. *)
Definition order_create (o : Order)
  : action (string * list (OrderItem * option Product)) :=
  fun s =>
    let id := fresh_string "order" (orders s) in
    (Next (id, map (fun it => (it, products s !! oi_productId it)) (ord_items o)),
     set_orders (insert id o) s).

(** The authenticated identity a middleware attaches as [req.user]. *)
Record Identity := { user_id : string; user_email : string; user_role : string }.

Section Backend.

Context (E : Env).

(** ** Authentication middleware *)

(** Extract token from request (cookie or Authorization header). *)
Definition extractToken (req : Request) : option string :=
  if Js.truthy_opt (cookies_token req) then cookies_token req
  else match headers_authorization req with
       | Some h => if Js.startsWith "Bearer " h
                   then Some (Js.slice_from 7 h) else None
       | None => None
       end.

(** [const token = extractToken(req); if (!token) return 401;
    const decoded = verifyToken(token)] *)
Definition decode (req : Request) : action Decoded :=
  if Js.truthy_opt (extractToken req) then
    match extractToken req ≫= verifyToken E with
    | Some d => ret d
    | None => throw jwt_error
    end
  else send 401 (JError "Authentication required").

Definition invalid_token {A} (_ : JsError) : action A :=
  send 401 (JError "Invalid or expired token").

(** General authentication middleware. *)
Definition authenticate (req : Request) : action Identity :=
  try_catch
    (d ← decode req;
     ret {| user_id := d_id d; user_email := d_email d; user_role := d_role d |})
    invalid_token.

(** Middleware to check if user has a specific role. *)
Definition requireRole (roles : list string) (u : option Identity) : action unit :=
  match u with
  | None => send 401 (JError "Authentication required")
  | Some u => if bool_decide (user_role u ∈ roles) then ret tt
              else send 403 (JError "Insufficient permissions")
  end.

(** Middleware specifically for user routes. *)
Definition authenticateUser (req : Request) : action Identity :=
  try_catch
    (d ← decode req;
     if negb (String.eqb (d_role d) "user") then
       send 403 (JError "User access required")
     else
       user ← read (fun s => users s !! d_id d);
       match user with
       | None => send 401 (JError "User not found")
       | Some u =>
           ret {| user_id := d_id d; user_email := u_email u;
                  user_role := d_role d |}
       end)
    invalid_token.

(** Middleware specifically for owner routes. *)
Definition authenticateOwner (req : Request) : action Identity :=
  try_catch
    (d ← decode req;
     if negb (String.eqb (d_role d) "owner") then
       send 403 (JError "Owner access required")
     else
       owner ← read (fun s => owners s !! d_id d);
       match owner with
       | None => send 401 (JError "Owner not found")
       | Some o =>
           if negb (o_approved o) then
             send 403 (JErrorCode "Your account is pending approval."
                         "PENDING_APPROVAL")
           else
             ret {| user_id := d_id d; user_email := o_email o;
                    user_role := d_role d |}
       end)
    invalid_token.

(** Middleware specifically for admin routes. *)
Definition authenticateAdmin (req : Request) : action Identity :=
  try_catch
    (d ← decode req;
     if negb (String.eqb (d_role d) "admin") then
       send 403 (JError "Admin access required")
     else
       admin ← read (fun s => admins s !! d_id d);
       match admin with
       | None => send 401 (JError "Admin not found")
       | Some a =>
           ret {| user_id := d_id d; user_email := a_email a;
                  user_role := a_role a |}
       end)
    invalid_token.

(** The four gates a route can be mounted behind. *)
Inductive Gate := AnyRole | UserOnly | OwnerOnly | AdminOnly.

Definition gate (g : Gate) : Request → action Identity :=
  match g with
  | AnyRole => authenticate
  | UserOnly => authenticateUser
  | OwnerOnly => authenticateOwner
  | AdminOnly => authenticateAdmin
  end.

(** [router.METHOD(path, gate, handler)]: the handler runs when the gate
    calls [next()]. *)
Definition route (g : Gate) (handler : Identity → action Empty_set)
    (req : Request) : Store → Response * Store :=
  respond (u ← gate g req; handler u).

(** ** Notification service *)

(** [prisma.notification.create({ data })] *)
Definition notification_create (n : Notification) : action Notification :=
  fun s =>
    match notification_fault E n with
    | Some e => (Thrown e, s)
    | None => (Next n, set_notifications (fun l => l ++ [n]) s)
    end.

Definition user_notification (userId type title message link : string) : Notification :=
  {| n_userId := Some userId; n_ownerId := None; n_adminId := None;
     n_type := type; n_title := title; n_message := message; n_link := link |}.

Definition owner_notification (ownerId type title message link : string) : Notification :=
  {| n_userId := None; n_ownerId := Some ownerId; n_adminId := None;
     n_type := type; n_title := title; n_message := message; n_link := link |}.

(** Create a notification for a user; a failure is caught and
    reported on the console, and [undefined] is returned. *)
Definition notifyUser (userId type title message link : string)
  : action (option Notification) :=
  try_catch
    (n ← notification_create (user_notification userId type title message link);
     ret (Some n))
    (fun _ => ret None).

(** Create a notification for an owner. *)
Definition notifyOwner (ownerId type title message link : string)
  : action (option Notification) :=
  try_catch
    (n ← notification_create (owner_notification ownerId type title message link);
     ret (Some n))
    (fun _ => ret None).

Definition order_created_message (orderId : string) (total : float) : string :=
  "New order #" +:+ Js.slice_last 8 orderId +:+ " received for â‚±"
    +:+ toLocaleString E total.

Definition notifyOrderCreated (orderId : string) (total : float)
    (shopOwnerId : string) : action unit :=
  notifyOwner shopOwnerId "order" "New Order Received"
    (order_created_message orderId total) "/dashboard/orders";;
  ret tt.

Definition statusMessages (newStatus : string) : option string :=
  if String.eqb newStatus "processing" then Some "Your order is now being processed"
  else if String.eqb newStatus "shipped" then Some "Your order has been shipped"
  else if String.eqb newStatus "delivered" then Some "Your order has been delivered"
  else if String.eqb newStatus "cancelled" then Some "Your order has been cancelled"
  else None.


(** The names every object inherits from [Object.prototype]. *)
Definition inherited_names : list string :=
  [ "constructor"; "__defineGetter__"; "__defineSetter__"; "hasOwnProperty";
    "__lookupGetter__"; "__lookupSetter__"; "isPrototypeOf";
    "propertyIsEnumerable"; "toString"; "valueOf"; "__proto__";
    "toLocaleString" ].

(** [statusMessages[newStatus]] finds an inherited name as well; what
    it finds there is a function (for [__proto__] an object), which is
    truthy and stands as the message, the ORM refuses a message that is
    no string, and [notifyUser] swallows the refusal: no row is
    written. *)
Definition notifyOrderStatusChanged (userId newStatus : string) : action unit :=
  if bool_decide (newStatus ∈ inherited_names) then ret tt
  else
    notifyUser userId "order" ("Order " +:+ Js.capitalize newStatus)
      (match statusMessages newStatus with
       | Some m => m
       | None => "Your order status changed to " +:+ newStatus
       end)
      "/profile/orders";;
    ret tt.

(** ** Order routes *)

(** The first loop of [POST /api/orders]: look each product up, refuse
    a missing one or one short of stock, add up the total and collect
    the order items. *)
Definition price_item (acc : float * list OrderItem) (item : LineItem)
  : action (float * list OrderItem) :=
  product ← read (fun s => products s !! li_productId item);
  match product with
  | None =>
      send 404 (JError ("Product " +:+ li_productId item +:+ " not found"))
  | Some p =>
      if p_stock p <? li_quantity item then
        send 400 (JError ("Insufficient stock for " +:+ p_name p))
      else
        let itemTotal := (p_price p * Js.Number_of_int (li_quantity item))%float in
        ret ((acc.1 + itemTotal)%float,
             acc.2 ++ [{| oi_productId := li_productId item;
                          oi_quantity := li_quantity item;
                          oi_price := p_price p |}])
  end.

Definition decrement (q : Z) (p : Product) : Product :=
  {| p_name := p_name p; p_price := p_price p; p_stock := p_stock p - q;
     p_shopId := p_shopId p; p_status := p_status p |}.

(** The second loop: update product stock. *)
Definition decrement_item (_ : unit) (item : LineItem) : action unit :=
  product_update (li_productId item) (decrement (li_quantity item));;
  ret tt.

(** The third loop: the owners of the shops of the ordered products. *)
Definition add_shop_owner (shopOwnerIds : list string)
    (item : OrderItem * option Product) : action (list string) :=
  match item.2 with
  | Some p =>
      if Js.truthy (p_shopId p) then
        shop ← read (fun s => shops s !! p_shopId p);
        match shop with
        | Some sh =>
            if Js.truthy (shop_ownerId sh)
            then ret (Js.Set_add (shop_ownerId sh) shopOwnerIds)
            else ret shopOwnerIds
        | None => ret shopOwnerIds
        end
      else ret shopOwnerIds
  | None => ret shopOwnerIds
  end.

(** [POST /api/orders]: create order. *)
Definition post_orders (u : Identity) (b : OrderBody) : action Empty_set :=
  priced ← for_of (items b) price_item (0%float, []);
  let total := priced.1 in
  order ← order_create
    {| ord_userId := user_id u; ord_total := total;
       ord_status := default_order_status;
       ord_receiptNumber := None; ord_completedAt := None;
       ord_shippingAddress := shippingAddress b;
       ord_shippingCity := shippingCity b;
       ord_shippingZip := shippingZip b;
       ord_items := priced.2 |};
  for_of (items b) decrement_item tt;;
  shopOwnerIds ← for_of order.2 add_shop_owner [];
  for_of shopOwnerIds (fun _ ownerId => notifyOrderCreated order.1 total ownerId) tt;;
  send 201 (JOrder order.1 total default_order_status None).

Definition with_status (st : string) (o : Order) : Order :=
  {| ord_userId := ord_userId o; ord_total := ord_total o; ord_status := st;
     ord_receiptNumber := ord_receiptNumber o;
     ord_completedAt := ord_completedAt o;
     ord_shippingAddress := ord_shippingAddress o;
     ord_shippingCity := ord_shippingCity o;
     ord_shippingZip := ord_shippingZip o; ord_items := ord_items o |}.

Definition order_json (id : string) (o : Order) : Json :=
  JOrder id (ord_total o) (ord_status o) (ord_receiptNumber o).

(** [PUT /api/orders/:id/cancel]: cancel order (user only, pending
    orders only). *)
Definition put_orders_cancel (u : Identity) (id : string) : action Empty_set :=
  order ← read (fun s => orders s !! id);
  match order with
  | None => send 404 (JError "Order not found")
  | Some o =>
      if negb (String.eqb (ord_userId o) (user_id u)) then
        send 403 (JError "Access denied")
      else if negb (String.eqb (ord_status o) "pending") then
        send 400 (JError "Only pending orders can be cancelled")
      else
        updatedOrder ← order_update id (with_status "cancelled");
        send 200 (order_json id updatedOrder)
  end.

(** [order.items.some((item) => item.product.shop.ownerId === req.user.id)]
    over the items as loaded with their product and its shop; reading
    through a missing product or shop throws. *)
Fixpoint some_owned (items : list OrderItem) (ownerId : string) : action bool :=
  match items with
  | [] => ret false
  | item :: rest =>
      product ← read (fun s => products s !! oi_productId item);
      match product with
      | None => throw (type_error "shop")
      | Some p =>
          shop ← read (fun s => shops s !! p_shopId p);
          match shop with
          | None => throw (type_error "ownerId")
          | Some sh =>
              if String.eqb (shop_ownerId sh) ownerId then ret true
              else some_owned rest ownerId
          end
      end
  end.

(** [PUT /api/orders/:id/status]: update order status (owner only). *)
Definition put_orders_status (u : Identity) (id status : string)
  : action Empty_set :=
  order ← read (fun s => orders s !! id);
  match order with
  | None => send 404 (JError "Order not found")
  | Some o =>
      ownsProduct ← some_owned (ord_items o) (user_id u);
      if negb ownsProduct then send 403 (JError "Access denied")
      else
        updatedOrder ← order_update id (with_status status);
        notifyOrderStatusChanged (ord_userId updatedOrder) status;;
        send 200 (order_json id updatedOrder)
  end.

(** Receipt number: RCP-YYYYMMDD-XXXXXXXX. *)
Definition receipt_number (amb : Ambient) : string :=
  let dateStr := Js.remove_dashes (Js.substring 0 10 (now_iso amb)) in
  let randomPart := Js.toUpperCase (Js.substring 2 10 (random36 amb)) in
  "RCP-" +:+ dateStr +:+ "-" +:+ randomPart.

Definition completed (amb : Ambient) (o : Order) : Order :=
  {| ord_userId := ord_userId o; ord_total := ord_total o;
     ord_status := "completed";
     ord_receiptNumber := Some (receipt_number amb);
     ord_completedAt := Some (now_iso amb);
     ord_shippingAddress := ord_shippingAddress o;
     ord_shippingCity := ord_shippingCity o;
     ord_shippingZip := ord_shippingZip o; ord_items := ord_items o |}.

(** [item.product?.shop?.ownerId], added to the set when truthy. *)
Definition add_item_owner (shopOwnerIds : list string) (item : OrderItem)
  : action (list string) :=
  owner ← read (fun s =>
    p ← products s !! oi_productId item;
    sh ← shops s !! p_shopId p;
    Some (shop_ownerId sh));
  if Js.truthy_opt owner
  then ret (Js.Set_add (default "" owner) shopOwnerIds)
  else ret shopOwnerIds.

Definition order_completed_notification (ownerId orderId receiptNumber : string)
  : Notification :=
  owner_notification ownerId "order" "Order Completed"
    ("Order #" +:+ Js.slice_last 6 orderId
       +:+ " has been confirmed by the customer. Receipt: " +:+ receiptNumber)
    "/orders".

(** [PUT /api/orders/:id/confirm]: user confirms order completion
    (generates system receipt). *)
Definition put_orders_confirm (amb : Ambient) (u : Identity) (id : string)
  : action Empty_set :=
  order ← read (fun s => orders s !! id);
  match order with
  | None => send 404 (JError "Order not found")
  | Some o =>
      if negb (String.eqb (ord_userId o) (user_id u)) then
        send 403 (JError "Access denied")
      else if negb (String.eqb (ord_status o) "delivered") then
        send 400 (JError "Can only confirm delivered orders")
      else if Js.truthy_opt (ord_receiptNumber o) then
        send 400 (JErrorReceipt "Order has already been confirmed"
                    (default "" (ord_receiptNumber o)))
      else
        let receiptNumber := receipt_number amb in
        (* the products and shops come with [order], loaded before the update *)
        shopOwnerIds ← for_of (ord_items o) add_item_owner [];
        updatedOrder ← order_update id (completed amb);
        for_of shopOwnerIds
          (fun _ ownerId =>
             notification_create
               (order_completed_notification ownerId id receiptNumber);;
             ret tt) tt;;
        send 200 (JConfirmed "Order confirmed successfully" receiptNumber id)
  end.

(** ** User routes: the wishlist *)

(** The stored wishlist as an array: [user.wishlist || []], parsed if
    it is a string, and [[]] if that fails or is no array. *)
Definition current_wishlist (w : WishlistValue) : list string :=
  match w with
  | WNull => []
  | WString str =>
      if Js.truthy str then default [] (JSON_parse_array E str) else []
  | WArray ids => ids
  end.

(** Toggle product in wishlist. *)
Definition toggle (productId : string) (currentWishlist : list string)
  : list string :=
  if bool_decide (productId ∈ currentWishlist)
  then filter (λ id, id ≠ productId) currentWishlist
  else currentWishlist ++ [productId].

Definition with_wishlist (w : list string) (u : User) : User :=
  {| u_email := u_email u; u_wishlist := WArray w |}.

(** [PUT /api/users/wishlist]: update wishlist (add/remove product). *)
Definition put_users_wishlist (u : Identity) (productId : string)
  : action Empty_set :=
  user ← read (fun s => users s !! user_id u);
  match user with
  | None => throw (type_error "wishlist")
  | Some usr =>
      let newWishlist := toggle productId (current_wishlist (u_wishlist usr)) in
      updatedUser ← user_update (user_id u) (with_wishlist newWishlist);
      send 200 (JWishlist (current_wishlist (u_wishlist updatedUser)))
  end.

(** ** Admin routes: product moderation *)

Definition with_product_status (st : string) (p : Product) : Product :=
  {| p_name := p_name p; p_price := p_price p; p_stock := p_stock p;
     p_shopId := p_shopId p; p_status := st |}.

(** The shared shape of approve and reject: update the product's
    status, then notify the owner of its shop. *)
Definition moderate (id st title : string) (message : Product → string)
    (done : string) : action Empty_set :=
  product ← product_update id (with_product_status st);
  shop ← read (fun s => shops s !! p_shopId product);
  match shop with
  | None => throw (type_error "ownerId")
  | Some sh =>
      notification_create
        (owner_notification (shop_ownerId sh) "approval" title
           (message product) "/products");;
      send 200 (JProduct done id st)
  end.

Definition quoted (name : string) : string :=
  String "034" name +:+ String "034" EmptyString.

(** [PUT /api/admin/products/:id/approve]: approve a product. *)
Definition put_admin_products_approve (id : string) : action Empty_set :=
  moderate id "approved" "Product Approved"
    (fun product =>
       "Your product " +:+ quoted (p_name product)
         +:+ " has been approved and is now visible to customers.")
    "Product approved successfully".

(** [PUT /api/admin/products/:id/reject]: reject a product. *)
Definition put_admin_products_reject (id : string) (reason : option string)
  : action Empty_set :=
  moderate id "rejected" "Product Rejected"
    (fun product =>
       if Js.truthy_opt reason
       then "Your product " +:+ quoted (p_name product)
              +:+ " has been rejected. Reason: " +:+ default "" reason
       else "Your product " +:+ quoted (p_name product)
              +:+ " has been rejected. Please review and update your product listing.")
    "Product rejected successfully".

(** ** The modelled endpoints *)

Inductive Endpoint :=
| PostOrders (b : OrderBody)
| PutOrdersCancel (id : string)
| PutOrdersStatus (id status : string)
| PutOrdersConfirm (id : string)
| PutUsersWishlist (productId : string)
| PutAdminProductsApprove (id : string)
| PutAdminProductsReject (id : string) (reason : option string).

(** The gate each endpoint is mounted behind. *)
Definition gate_of (ep : Endpoint) : Gate :=
  match ep with
  | PostOrders _ | PutOrdersCancel _ | PutOrdersConfirm _
  | PutUsersWishlist _ => UserOnly
  | PutOrdersStatus _ _ => OwnerOnly
  | PutAdminProductsApprove _ | PutAdminProductsReject _ _ => AdminOnly
  end.

(** What runs after the gate: the validation chain, then the handler. *)
Definition handler_of (amb : Ambient) (ep : Endpoint) (u : Identity)
  : action Empty_set :=
  match ep with
  | PostOrders b =>
      validate (createOrderValidation b);; post_orders u (sanitize b)
  | PutOrdersCancel id => put_orders_cancel u id
  | PutOrdersStatus id st =>
      validate (updateStatusValidation st);; put_orders_status u id st
  | PutOrdersConfirm id => put_orders_confirm amb u id
  | PutUsersWishlist productId =>
      validate (wishlistValidation productId);; put_users_wishlist u productId
  | PutAdminProductsApprove id => put_admin_products_approve id
  | PutAdminProductsReject id reason => put_admin_products_reject id reason
  end.

Definition serve (amb : Ambient) (ep : Endpoint) (req : Request)
  : Store → Response * Store :=
  route (gate_of ep) (handler_of amb ep) req.

End Backend.

(** ** A small shop, for the examples *)

Module Demo.

(** Tokens are verified by table lookup; every notification write
    succeeds; formatting is left blank. *)
Definition env : Env :=
  {| verifyToken := fun t =>
       if String.eqb t "tok-ann" then
         Some {| d_id := "ann"; d_email := "ann@x"; d_role := "user" |}
       else if String.eqb t "tok-olga" then
         Some {| d_id := "olga"; d_email := "olga@x"; d_role := "owner" |}
       else if String.eqb t "tok-oscar" then
         Some {| d_id := "oscar"; d_email := "oscar@x"; d_role := "owner" |}
       else if String.eqb t "tok-root" then
         Some {| d_id := "root"; d_email := "root@x"; d_role := "admin" |}
       else None;
     notification_fault := fun _ => None;
     toLocaleString := fun _ => "";
     JSON_parse_array := fun str =>
       if String.eqb str "[]" then Some [] else None |}.

Definition connection_lost : JsError :=
  {| err_code := Some "P1001"; err_name := "PrismaClientInitializationError";
     err_message := "Can't reach database server"; err_statusCode := None;
     err_target := None |}.

(** The same, but the database refuses every notification row. *)
Definition env_failing : Env :=
  {| verifyToken := verifyToken env;
     notification_fault := fun _ => Some connection_lost;
     toLocaleString := toLocaleString env;
     JSON_parse_array := JSON_parse_array env |}.

Definition amb : Ambient :=
  {| now_iso := "2025-03-09T10:15:30.000Z"; random36 := "0.k3j9x2mq7pz" |}.

Definition bearer (t : string) : Request :=
  {| cookies_token := None; headers_authorization := Some ("Bearer " +:+ t) |}.

Definition anonymous : Request :=
  {| cookies_token := None; headers_authorization := None |}.

Definition product (name : string) (price : float) (stock : Z) : Product :=
  {| p_name := name; p_price := price; p_stock := stock;
     p_shopId := "shop1"; p_status := "approved" |}.

Definition store : Store :=
  {| users := {[ "ann" := {| u_email := "ann@x"; u_wishlist := WString "[]" |} ]};
     owners := {[ "olga" := {| o_email := "olga@x"; o_businessName := "Olga";
                               o_approved := true |};
                  "oscar" := {| o_email := "oscar@x"; o_businessName := "Oscar";
                                o_approved := false |} ]};
     admins := {[ "root" := {| a_email := "root@x"; a_name := "Root";
                               a_role := "admin" |} ]};
     shops := {[ "shop1" := {| shop_name := "Yard"; shop_ownerId := "olga" |} ]};
     products := {[ "A" := product "Anvil" 10 5; "B" := product "Bolt" 5 3;
                    "C" := {| p_name := "Crate"; p_price := 7; p_stock := 1;
                              p_shopId := "shop1"; p_status := "pending" |} ]};
     orders := ∅;
     notifications := [] |}.

Definition anvils (st : string) (receipt : option string) : Order :=
  {| ord_userId := "ann"; ord_total := 20; ord_status := st;
     ord_receiptNumber := receipt; ord_completedAt := None;
     ord_shippingAddress := "1 Main St"; ord_shippingCity := "Cebu";
     ord_shippingZip := "6000";
     ord_items := [ {| oi_productId := "A"; oi_quantity := 2; oi_price := 10 |} ] |}.

(** The store with Ann's order of two anvils, delivered and not yet
    confirmed. *)
Definition delivered : Store :=
  set_orders (insert "ord1" (anvils "delivered" None)) store.

Definition order_body (l : list LineItem) : OrderBody :=
  {| items := l; shippingAddress := "1 Main St"; shippingCity := "Cebu";
     shippingZip := "6000" |}.

Definition line (productId : string) (q : Z) : LineItem :=
  {| li_productId := productId; li_quantity := q |}.

Definition ann : Identity :=
  {| user_id := "ann"; user_email := "ann@x"; user_role := "user" |}.

End Demo.

(** * The vocabulary of the properties *)

(** ** Order creation, in the words of the specification *)

(** What the specification speaks of, read off the store before the
    request. *)

(** The price stored on the product a line item names. *)
Definition line_price (s : Store) (item : LineItem) : float :=
  default 0%float (p_price <$> products s !! li_productId item).

(** Unit price times quantity, as binary64 numbers: the quantity is the
    number nearest to the integer. *)
Definition line_amount (s : Store) (item : LineItem) : float :=
  (line_price s item
   * SF2Prim (binary_normalize prec emax (li_quantity item) 0 false))%float.

(** The sum of the line amounts, taken in request order from zero. *)
Definition sum_of_lines (s : Store) (l : list LineItem) : float :=
  foldl (λ acc item, (acc + line_amount s item)%float) 0%float l.

Definition snapshot (s : Store) (item : LineItem) : OrderItem :=
  {| oi_productId := li_productId item; oi_quantity := li_quantity item;
     oi_price := line_price s item |}.

(** The line item names an existing product with enough stock. *)
Definition in_stock (s : Store) (item : LineItem) : Prop :=
  ∃ p, products s !! li_productId item = Some p ∧ li_quantity item ≤ p_stock p.

(** The line item names an existing product short of stock. *)
Definition short_of_stock (s : Store) (item : LineItem) : Prop :=
  ∃ p, products s !! li_productId item = Some p ∧ p_stock p < li_quantity item.

(** How much of product [pid] the request asks for, over all its lines. *)
Definition requested (pid : string) (l : list LineItem) : Z :=
  foldr (λ item acc, if bool_decide (li_productId item = pid)
                     then li_quantity item + acc else acc) 0 l.

(** The owner of the shop of the product a line item names, as the
    notification loop finds it. *)
Definition shop_owner (s : Store) (pid : string) : option string :=
  p ← products s !! pid;
  if Js.truthy (p_shopId p) then
    sh ← shops s !! p_shopId p;
    if Js.truthy (shop_ownerId sh) then Some (shop_ownerId sh) else None
  else None.

(** The products after the stock loop has run over the lines. *)
Definition decremented (l : list LineItem) (m : gmap string Product)
  : gmap string Product :=
  foldl (λ m item, alter (decrement (li_quantity item)) (li_productId item) m) m l.

(** The distinct shop owners behind a list of product ids, in order of
    first appearance. *)
Definition distinct_owners (s : Store) (pids acc : list string) : list string :=
  foldl (λ acc pid, match shop_owner s pid with
                    | Some o => Js.Set_add o acc
                    | None => acc
                    end) acc pids.

(** The row that tells an owner of a new order: it names the last
    eight characters of the order's identifier and the total. *)
Definition order_created_notification (E : Env) (orderId : string)
    (total : float) (ownerId : string) : Notification :=
  {| n_userId := None; n_ownerId := Some ownerId; n_adminId := None;
     n_type := "order"; n_title := "New Order Received";
     n_message := "New order #"
                    +:+ String.substring (String.length orderId - 8) 8 orderId
                    +:+ " received for â‚±" +:+ toLocaleString E total;
     n_link := "/dashboard/orders" |}.

(** The database takes the row. *)
Definition accepted (E : Env) (n : Notification) : bool :=
  match notification_fault E n with None => true | Some _ => false end.

(** The order row [POST /api/orders] writes. *)
Definition new_order (u : Identity) (b : OrderBody) (s : Store) : Order :=
  {| ord_userId := user_id u; ord_total := sum_of_lines s (items b);
     ord_status := default_order_status;
     ord_receiptNumber := None; ord_completedAt := None;
     ord_shippingAddress := shippingAddress b;
     ord_shippingCity := shippingCity b;
     ord_shippingZip := shippingZip b;
     ord_items := map (snapshot s) (items b) |}.

(** The identifier the new order row gets. *)
Definition new_order_id (s : Store) : string := fresh_string "order" (orders s).

(** ** Order confirmation *)

(** [item.product?.shop?.ownerId] read off the store. *)
Definition item_owner (s : Store) (item : OrderItem) : option string :=
  p ← products s !! oi_productId item;
  sh ← shops s !! p_shopId p;
  Some (shop_ownerId sh).

(** The distinct owners the confirmation notifies. *)
Definition confirm_owners (s : Store) (l : list OrderItem) (acc : list string)
  : list string :=
  foldl (λ acc item, if Js.truthy_opt (item_owner s item)
                     then Js.Set_add (default "" (item_owner s item)) acc
                     else acc) acc l.

(** The order is there, belongs to the caller, is delivered, and has no
    receipt yet. *)
Definition confirmable (s : Store) (u : Identity) (id : string) (o : Order) : Prop :=
  orders s !! id = Some o
  ∧ ord_userId o = user_id u
  ∧ ord_status o = "delivered"
  ∧ Js.truthy_opt (ord_receiptNumber o) = false.

(** ** The order status update *)





(** ** The receipt invariant *)

(** An order in status "completed" has a receipt identifier. *)
Definition order_ok (o : Order) : Prop :=
  ord_status o = "completed" →
  ∃ receipt, ord_receiptNumber o = Some receipt ∧ receipt ≠ "".

Definition completed_have_receipt (s : Store) : Prop :=
  ∀ id o, orders s !! id = Some o → order_ok o.

(** Whatever it answers, the action keeps the invariant. *)
Definition preserves {A} (m : action A) : Prop :=
  ∀ s, completed_have_receipt s → completed_have_receipt (m s).2.

(** The states the endpoints lead to from [s0]. *)
Inductive reachable (E : Env) (s0 : Store) : Store → Prop :=
| reach_start : reachable E s0 s0
| reach_step (s : Store) (amb : Ambient) (ep : Endpoint) (req : Request) :
    reachable E s0 s → reachable E s0 (serve E amb ep req s).2.

(** ** Cancellation, refusals *)

(** The order is there, belongs to the caller and is pending. *)
Definition cancellable (s : Store) (u : Identity) (id : string) (o : Order) : Prop :=
  orders s !! id = Some o
  ∧ ord_userId o = user_id u
  ∧ ord_status o = "pending".

(** ** More of the small shop *)

Module Fixtures.

(** Ann's order of two anvils, still pending. *)
Definition pending : Store :=
  set_orders (insert "ord1" (Demo.anvils "pending" None)) Demo.store.

Definition bob : Identity :=
  {| user_id := "bob"; user_email := "bob@x"; user_role := "user" |}.

End Fixtures.

(** ** Product moderation *)

(** The text of the notification a rejection sends. *)
Definition rejection_message (reason : option string) (p : Product) : string :=
  if Js.truthy_opt reason
  then "Your product " +:+ quoted (p_name p)
         +:+ " has been rejected. Reason: " +:+ default "" reason
  else "Your product " +:+ quoted (p_name p)
         +:+ " has been rejected. Please review and update your product listing.".

Definition approval_message (p : Product) : string :=
  "Your product " +:+ quoted (p_name p)
    +:+ " has been approved and is now visible to customers.".

(** ** The gates, one by one *)

(** The role a gate asks of the token, if it asks one. *)
Definition required_role (g : Gate) : option string :=
  match g with
  | AnyRole => None
  | UserOnly => Some "user"
  | OwnerOnly => Some "owner"
  | AdminOnly => Some "admin"
  end.

(** The answer to a token of another role. *)
Definition role_refusal (g : Gate) : string :=
  match g with
  | AnyRole => ""
  | UserOnly => "User access required"
  | OwnerOnly => "Owner access required"
  | AdminOnly => "Admin access required"
  end.

(** The table of the gate has no account with this id. *)
Definition account_missing (g : Gate) (s : Store) (id : string) : Prop :=
  match g with
  | AnyRole => False
  | UserOnly => users s !! id = None
  | OwnerOnly => owners s !! id = None
  | AdminOnly => admins s !! id = None
  end.

(** The answer to a token whose account is gone. *)
Definition stale_refusal (g : Gate) : string :=
  match g with
  | AnyRole => ""
  | UserOnly => "User not found"
  | OwnerOnly => "Owner not found"
  | AdminOnly => "Admin not found"
  end.

(** The request carries the token [t], which verifies to [d]. *)
Definition bears (E : Env) (req : Request) (t : string) (d : Decoded) : Prop :=
  extractToken req = Some t ∧ t ≠ "" ∧ verifyToken E t = Some d.

(** The identity the general middleware attaches: the token's payload. *)
Definition token_identity (d : Decoded) : Identity :=
  {| user_id := d_id d; user_email := d_email d; user_role := d_role d |}.

Module Fixtures2.

(** A truthy but forged cookie beside a good Authorization header. *)
Definition forged_cookie : Request :=
  {| cookies_token := Some "forged";
     headers_authorization := Some "Bearer tok-ann" |}.

(** A store from which Ann's account has been removed. *)
Definition without_ann : Store := set_users (delete "ann") Demo.store.

End Fixtures2.

Module Fixtures3.

(** Ann's wishlist column holds a string that is no JSON array. *)
Definition garbled : Store :=
  set_users (insert "ann" {| u_email := "ann@x"; u_wishlist := WString "oops" |})
    Demo.store.

End Fixtures3.

(** * More of the backend *)

(** ** Image validation (utils/imageValidator.js) *)

Module ImageValidator.

(** [{ valid, error }] *)
Record Result := { valid : bool; error : option string }.

Definition accept : Result := {| valid := true; error := None |}.

Definition reject (msg : string) : Result := {| valid := false; error := Some msg |}.

(** The alternatives of [base64Regex]. *)
Definition image_types : list string :=
  ["png"; "jpeg"; "jpg"; "gif"; "webp"; "svg+xml"].

Definition data_uri_prefix (ty : string) : string :=
  "data:image/" +:+ ty +:+ ";base64,".

(** [base64Regex.test(s)]: the string starts with a data URI header of
    one of the image types. *)
Definition base64Regex_test (s : string) : bool :=
  existsb (λ ty, String.prefix (data_uri_prefix ty) s) image_types.

(** [s.split(",")] *)
Fixpoint split_comma (s : string) : list string :=
  match s with
  | EmptyString => [EmptyString]
  | String c r =>
      if Ascii.eqb c "," then EmptyString :: split_comma r
      else match split_comma r with
           | x :: xs => String c x :: xs
           | [] => [String c EmptyString]
           end
  end.

Definition MAX_SIZE_MB : Z := 50.

(** [sizeInMB > MAX_SIZE_MB] where
    [sizeInMB = (length * 3) / 4 / (1024 * 1024)].  For every length a
    string can have, the product and the two divisions by powers of two
    are exact in binary64, so the comparison is the one of the exact
    values. *)
Definition exceeds_max (length : Z) : bool :=
  MAX_SIZE_MB * 4 * (1024 * 1024) <? length * 3.

Definition digit (d : Z) : ascii := ascii_of_nat (48 + Z.to_nat d).

(** [sizeInMB.toFixed(2)]: the hundredths nearest to the exact value,
    the larger one on a tie. *)
Definition sizeInMB_toFixed2 (length : Z) : string :=
  let n := (length * 300 + 2097152) / 4194304 in
  pretty (n / 100) +:+ "."
    +:+ String (digit (n mod 100 / 10)) (String (digit (n mod 10)) EmptyString).

(** Validate base64 image string. *)
Definition validateBase64Image (base64String : string) : Result :=
  if negb (Js.truthy base64String) then
    reject "Image data is required"
  else if negb (base64Regex_test base64String) then
    reject "Invalid image format. Must be a base64 data URI with format: data:image/[type];base64,[data]"
  else
    (* a string that passes the test has a comma: [split(",")[1]] is
       defined (see [split_second]) *)
    let base64Data := nth 1 (split_comma base64String) EmptyString in
    let length := Z.of_nat (String.length base64Data) in
    if exceeds_max length then
      reject ("Image size (" +:+ sizeInMB_toFixed2 length
                +:+ "MB) exceeds maximum allowed size of "
                +:+ pretty MAX_SIZE_MB +:+ "MB")
    else accept.

(** The loop of [validateBase64Images], from index [i]. *)
Fixpoint validate_from (i : nat) (images : list string) : Result :=
  match images with
  | [] => accept
  | image :: rest =>
      let result := validateBase64Image image in
      if negb (valid result) then
        reject ("Image " +:+ pretty (i + 1)%nat +:+ ": " +:+ default "" (error result))
      else validate_from (S i) rest
  end.

(** Validate array of base64 images. *)
Definition validateBase64Images (images : list string) : Result :=
  validate_from 0 images.

(** The data a well-formed image string carries up to its next comma:
    what the size check measures. *)
Definition measured (rest : string) : string := hd EmptyString (split_comma rest).

End ImageValidator.

(** ** Answers with a body of their own *)

(** The handlers below end in [res.status(code).json(body)] for a body
    that [Json] has no shape for.  Such a handler is an action whose
    value is its final answer, the pair of the status code and the
    body; refusals are sent, and errors thrown, as before. *)
Definition reply {B} (code : Z) (body : B) : action (Z * B) := ret (code, body).

(** The answer the client gets: the final one, or a refusal (and, for a
    thrown error, what [errorHandler] makes of it). *)
Definition conclude {B} (m : action (Z * B)) (s : Store)
  : (Response + Z * B) * Store :=
  match m s with
  | (Next answer, s') => (inr answer, s')
  | (Sent r, s') => (inl r, s')
  | (Thrown e, s') => (inl (errorHandler e), s')
  end.

(** [prisma.owner.update({ where: { id }, data })] *)
Definition owner_update (id : string) (f : Owner → Owner) : action Owner :=
  fun s =>
    match owners s !! id with
    | Some o =>
        (Next (f o),
         {| users := users s; owners := <[id := f o]> (owners s);
            admins := admins s; shops := shops s; products := products s;
            orders := orders s; notifications := notifications s |})
    | None => (Thrown record_not_found, s)
    end.

(** [prisma.product.create({ data })]: the new row gets an identifier
    no other product has. *)
Definition product_create (p : Product) : action (string * Product) :=
  fun s =>
    let id := fresh_string "product" (products s) in
    (Next (id, p), set_products (insert id p) s).

Section NotificationService.

Context (E : Env).

Definition admin_notification (adminId type title message link : string) : Notification :=
  {| n_userId := None; n_ownerId := None; n_adminId := Some adminId;
     n_type := type; n_title := title; n_message := message; n_link := link |}.

(** Create a notification for an admin. *)
Definition notifyAdmin (adminId type title message link : string)
  : action (option Notification) :=
  try_catch
    (n ← notification_create E (admin_notification adminId type title message link);
     ret (Some n))
    (fun _ => ret None).

(** The error the database answers to a batch of rows: it refuses the
    batch as a whole if it refuses one of its rows. *)
Definition batch_fault (rows : list Notification) : option JsError :=
  head (omap (notification_fault E) rows).

(** [prisma.notification.createMany({ data })] *)
Definition notification_createMany (rows : list Notification) : action nat :=
  fun s =>
    match batch_fault rows with
    | Some e => (Thrown e, s)
    | None => (Next (length rows), set_notifications (λ ns, ns ++ rows) s)
    end.

(** [prisma.admin.findMany({ select: { id: true } })] *)
Definition admin_ids (s : Store) : list string := (map_to_list (admins s)).*1.

(** Notify all admins. *)
Definition notifyAllAdmins (type title message link : string) : action (option nat) :=
  try_catch
    (admins ← read admin_ids;
     let notifications :=
       map (λ adminId, admin_notification adminId type title message link) admins in
     count ← notification_createMany notifications;
     ret (Some count))
    (fun _ => ret None).

Definition notifyOwnerApproved (ownerId : string) (approved : bool) : action unit :=
  notifyOwner E ownerId "approval"
    (if approved then "Account Approved!" else "Account Status Changed")
    (if approved
     then "Your owner account has been approved. You can now access your dashboard."
     else "Your owner account status has changed. Please contact support for more info.")
    "/dashboard";;
  ret tt.

Definition notifyNewOwnerRegistration (businessName : string) : action unit :=
  notifyAllAdmins "approval" "New Owner Registration"
    ("New owner " +:+ quoted businessName +:+ " is pending approval")
    "/admin/owners";;
  ret tt.

(** ** Admin routes: owner approval *)

Definition approved_owner_record (o : Owner) : Owner :=
  {| o_email := o_email o; o_businessName := o_businessName o; o_approved := true |}.

(** [PUT /api/admin/owners/:id/approve]: approve an owner's business.
    The body is the message and the owner as updated. *)
Definition put_admin_owners_approve (id : string) : action (Z * (string * Owner)) :=
  owner ← owner_update id approved_owner_record;
  notifyOwnerApproved id true;;
  reply 200 ("Owner approved successfully", owner).

End NotificationService.

(** ** Product routes *)

(** The body of [POST /api/products], with its price and stock sent as
    numbers.  (The rules [isFloat] and [isInt] convert nothing: a price
    or a stock sent as a string goes on as a string, and the ORM
    refuses it.) *)
Record ProductBody := {
  pb_name : string;
  pb_description : option string;
  pb_price : float;
  pb_shopId : string;
  pb_category : string;
  pb_stock : Z;
  pb_type : string;
  pb_images : option (list string)
}.

(** The body of [PUT /api/products/:id]: each field may be left out; a
    price or a stock that is given is sent as a number. *)
Record ProductUpdate := {
  pu_name : option string;
  pu_description : option string;
  pu_price : option float;
  pu_category : option string;
  pu_stock : option Z;
  pu_type : option string;
  pu_images : option (list string)
}.

(** [data: { name, description, price, category, stock, type, images }]:
    a field that is [undefined] is left as it is.  Of these columns the
    store keeps the name, the price and the stock. *)
Definition with_product_data (b : ProductUpdate) (p : Product) : Product :=
  {| p_name := default (p_name p) (pu_name b);
     p_price := default (p_price p) (pu_price b);
     p_stock := default (p_stock p) (pu_stock b);
     p_shopId := p_shopId p;
     p_status := p_status p |}.

Section ProductRoutes.

Context (E : Env).

(** [GET /api/products/:id]: get product by ID (public - only approved
    products visible). *)
Definition get_products_id (id : string) : action (Z * (string * Product)) :=
  product ← read (λ s, products s !! id);
  match product with
  | None => send 404 (JError "Product not found")
  | Some p =>
      if negb (String.eqb (p_status p) "approved")
      then send 404 (JError "Product not found")
      else reply 200 (id, p)
  end.

Definition new_product (b : ProductBody) : Product :=
  {| p_name := pb_name b; p_price := pb_price b; p_stock := pb_stock b;
     p_shopId := pb_shopId b; p_status := "pending" |}.

Definition pending_product_notification (name shopName adminId : string)
  : Notification :=
  admin_notification adminId "approval" "New Product Pending Approval"
    ("A new product " +:+ quoted name +:+ " from shop " +:+ quoted shopName
       +:+ " is waiting for your approval.")
    "/products".

(** [POST /api/products]: create product (owner only). *)
Definition post_products (u : Identity) (b : ProductBody)
  : action (Z * (string * Product)) :=
  shop ← read (λ s, shops s !! pb_shopId b);
  match shop with
  | None => send 404 (JError "Shop not found")
  | Some shop =>
      if negb (String.eqb (shop_ownerId shop) (user_id u))
      then send 403 (JError "You do not own this shop")
      else
        product ← product_create (new_product b);
        admins ← read admin_ids;
        for_of admins
          (λ _ adminId,
             notification_create E
               (pending_product_notification (pb_name b) (shop_name shop) adminId);;
             ret tt) tt;;
        reply 201 product
  end.

(** [PUT /api/products/:id]: update product (owner only). *)
Definition put_products_id (u : Identity) (id : string) (b : ProductUpdate)
  : action (Z * (string * Product)) :=
  existingProduct ← read (λ s, products s !! id);
  match existingProduct with
  | None => send 404 (JError "Product not found")
  | Some existing =>
      shop ← read (λ s, shops s !! p_shopId existing);
      match shop with
      | None => throw (type_error "ownerId")
      | Some shop =>
          if negb (String.eqb (shop_ownerId shop) (user_id u))
          then send 403 (JError "You do not own this product")
          else
            product ← product_update id (with_product_data b);
            reply 200 (id, product)
      end
  end.

End ProductRoutes.

Definition not_found_answer : Response :=
  {| status := 404; json := JError "Product not found" |}.

Module Fixtures4.

(** Olga, as the owner gate attaches her. *)
Definition olga : Identity :=
  {| user_id := "olga"; user_email := "olga@x"; user_role := "owner" |}.


(** Oscar's request to list a barrel in his shop. *)
Definition barrel : ProductBody :=
  {| pb_name := "Barrel"; pb_description := None; pb_price := 12%float;
     pb_shopId := "shop1"; pb_category := "storage"; pb_stock := 4;
     pb_type := "Selling"; pb_images := None |}.

Definition cheaper : ProductUpdate :=
  {| pu_name := None; pu_description := None; pu_price := Some 8%float;
     pu_category := None; pu_stock := None; pu_type := None;
     pu_images := None |}.

End Fixtures4.

(** ** Reviews *)

Record Review := {
  rv_userId : string;
  rv_productId : string;
  rv_rating : Z;
  rv_comment : option string
}.

(** The body of [POST /api/users/reviews], after its validation chain. *)
Record ReviewBody := {
  rb_productId : string;
  rb_rating : Z;
  rb_comment : option string
}.

(** The body of the answer: the review row and a message. *)
Record ReviewAnswer := {
  ra_id : string;
  ra_review : Review;
  ra_message : string
}.

(** The [where] of the search for a completed order of the user with an
    item of the product. *)
Definition completed_with (userId productId : string) (row : string * Order) : Prop :=
  ord_userId row.2 = userId
  ∧ ord_status row.2 = "completed"
  ∧ Exists (λ item, oi_productId item = productId) (ord_items row.2).

#[global] Instance completed_with_dec userId productId row :
  Decision (completed_with userId productId row).
Proof. unfold completed_with. apply _. Defined.

(** The [where] of the search for the user's review of the product. *)
Definition review_of (userId productId : string) (row : string * Review) : Prop :=
  rv_userId row.2 = userId ∧ rv_productId row.2 = productId.

#[global] Instance review_of_dec userId productId row :
  Decision (review_of userId productId row).
Proof. unfold review_of. apply _. Defined.

(** [prisma.order.findFirst({ where })] and [prisma.review.findFirst({ where })]:
    the first row, in the order the table gives them, that satisfies
    the condition. *)
Definition findFirst {A} (P : string * A → Prop) `{!∀ row, Decision (P row)}
    (table : gmap string A) : option (string * A) :=
  snd <$> list_find P (map_to_list table).

(** [data: { rating, comment }]: a comment left out leaves the stored
    one as it is. *)
Definition with_review_data (b : ReviewBody) (r : Review) : Review :=
  {| rv_userId := rv_userId r; rv_productId := rv_productId r;
     rv_rating := rb_rating b;
     rv_comment := match rb_comment b with
                   | Some c => Some c
                   | None => rv_comment r
                   end |}.

Definition new_review (u : Identity) (b : ReviewBody) : Review :=
  {| rv_userId := user_id u; rv_productId := rb_productId b;
     rv_rating := rb_rating b; rv_comment := rb_comment b |}.

(** [POST /api/users/reviews]: submit a review for a product (user must
    have purchased the product).  The handler reads the products and
    the orders and writes the table of reviews. *)
Definition post_users_reviews (u : Identity) (b : ReviewBody) (s : Store)
    (reviews : gmap string Review)
  : (Response + Z * ReviewAnswer) * gmap string Review :=
  match products s !! rb_productId b with
  | None => (inl {| status := 404; json := JError "Product not found" |}, reviews)
  | Some _ =>
      match findFirst (completed_with (user_id u) (rb_productId b)) (orders s) with
      | None =>
          (inl {| status := 403;
                  json := JError "You can only review products from completed orders" |},
           reviews)
      | Some _ =>
          match findFirst (review_of (user_id u) (rb_productId b)) reviews with
          | Some existingReview =>
              let updatedReview := with_review_data b existingReview.2 in
              (inr (200, {| ra_id := existingReview.1; ra_review := updatedReview;
                            ra_message := "Review updated" |}),
               <[existingReview.1 := updatedReview]> reviews)
          | None =>
              let id := fresh_string "review" reviews in
              (inr (201, {| ra_id := id; ra_review := new_review u b;
                            ra_message := "Review submitted" |}),
               <[id := new_review u b]> reviews)
          end
      end
  end.

(** No user has two reviews of one product. *)
Definition one_review_each (reviews : gmap string Review) : Prop :=
  ∀ i j r r',
    reviews !! i = Some r → reviews !! j = Some r' →
    rv_userId r = rv_userId r' → rv_productId r = rv_productId r' → i = j.

(** The user bought the product: an order of theirs that holds it is
    completed. *)
Definition bought (s : Store) (userId productId : string) : Prop :=
  ∃ id o item,
    orders s !! id = Some o ∧ ord_userId o = userId
    ∧ ord_status o = "completed"
    ∧ item ∈ ord_items o ∧ oi_productId item = productId.

Module Fixtures5.

(** The store in which Ann's order of two anvils is completed. *)
Definition bought_anvils : Store :=
  set_orders (insert "ord1" (Demo.anvils "completed" (Some "RCP-1"))) Demo.store.

Definition praise : ReviewBody :=
  {| rb_productId := "A"; rb_rating := 5; rb_comment := Some "Solid." |}.

Definition second_thoughts : ReviewBody :=
  {| rb_productId := "A"; rb_rating := 3; rb_comment := None |}.

End Fixtures5.

(** ** User notification routes *)

(** A stored notification: the row of the notification service and the
    [isRead] flag the routes work on. *)
Record InboxRow := { row_of : Notification; row_isRead : bool }.

(** The notification table, by identifier. *)
Abbreviation Inbox := (gmap string InboxRow).

(** The body of an answer of these routes. *)
Inductive InboxBody :=
| IMessage (message : string)
| INotification (id : string) (row : InboxRow)
| IUnreadCount (n : nat).

Definition addressed_to (userId : string) (row : InboxRow) : Prop :=
  n_userId (row_of row) = Some userId.

#[global] Instance addressed_to_dec userId row : Decision (addressed_to userId row).
Proof. unfold addressed_to. apply _. Defined.

Definition mark_read (row : InboxRow) : InboxRow :=
  {| row_of := row_of row; row_isRead := true |}.

Definition notification_not_found : Response :=
  {| status := 404; json := JError "Notification not found" |}.

Definition access_denied : Response :=
  {| status := 403; json := JError "Access denied" |}.

(** [GET /api/notifications/unread/count] *)
Definition get_notifications_unread_count (u : Identity) (inbox : Inbox)
  : (Response + Z * InboxBody) * Inbox :=
  (inr (200,
        IUnreadCount
          (size (filter (λ kr, addressed_to (user_id u) kr.2 ∧ row_isRead kr.2 = false)
                   inbox))),
   inbox).

(** [PUT /api/notifications/:id/read]: mark a notification as read. *)
Definition put_notifications_read (u : Identity) (id : string) (inbox : Inbox)
  : (Response + Z * InboxBody) * Inbox :=
  match inbox !! id with
  | None => (inl notification_not_found, inbox)
  | Some notification =>
      if bool_decide (n_userId (row_of notification) ≠ Some (user_id u))
      then (inl access_denied, inbox)
      else (inr (200, INotification id (mark_read notification)),
            <[id := mark_read notification]> inbox)
  end.

(** [PUT /api/notifications/read-all]: mark all notifications as read. *)
Definition put_notifications_read_all (u : Identity) (inbox : Inbox)
  : (Response + Z * InboxBody) * Inbox :=
  (inr (200, IMessage "All notifications marked as read"),
   (λ row, if bool_decide (addressed_to (user_id u) row ∧ row_isRead row = false)
           then mark_read row else row) <$> inbox).

(** [DELETE /api/notifications/:id]: delete a notification. *)
Definition delete_notifications_id (u : Identity) (id : string) (inbox : Inbox)
  : (Response + Z * InboxBody) * Inbox :=
  match inbox !! id with
  | None => (inl notification_not_found, inbox)
  | Some notification =>
      if bool_decide (n_userId (row_of notification) ≠ Some (user_id u))
      then (inl access_denied, inbox)
      else (inr (200, IMessage "Notification deleted"), delete id inbox)
  end.

(** [DELETE /api/notifications/clear-all]: delete all notifications. *)
Definition delete_notifications_clear_all (u : Identity) (inbox : Inbox)
  : (Response + Z * InboxBody) * Inbox :=
  (inr (200, IMessage "All notifications cleared"),
   filter (λ kr, ¬ addressed_to (user_id u) kr.2) inbox).

(** *** The router *)

(** The routes of a router are tried in the order of their
    registration; the first whose method and path match handles the
    request, and a handler that answers, or passes an error on, ends
    the search.  A path is given by its segments below the mount point;
    [:id] stands for any one segment, a literal for itself in any
    letter case. *)
Inductive Method := GET | POST | PUT | DELETE.

#[global] Instance Method_eq_dec : EqDecision Method.
Proof. solve_decision. Defined.

Inductive Segment :=
| Lit (text : string)
| Param.

Fixpoint match_path (pattern : list Segment) (path : list string)
  : option (list string) :=
  match pattern, path with
  | [], [] => Some []
  | Lit text :: pattern, x :: path =>
      if String.eqb (Js.toUpperCase text) (Js.toUpperCase x)
      then match_path pattern path else None
  | Param :: pattern, x :: path => cons x <$> match_path pattern path
  | _, _ => None
  end.

Definition dispatch {H} (routes : list (Method * list Segment * H))
    (m : Method) (path : list string) : option (H * list string) :=
  head (omap (λ route : Method * list Segment * H,
                if bool_decide (route.1.1 = m)
                then pair route.2 <$> match_path route.1.2 path
                else None) routes).

Inductive NotificationRoute :=
| ListNotifications
| UnreadCount
| MarkRead
| ReadAll
| DeleteNotification
| ClearAll.

(** The router of user notifications, as registered. *)
Definition notification_routes : list (Method * list Segment * NotificationRoute) :=
  [ (GET, [], ListNotifications);
    (GET, [Lit "unread"; Lit "count"], UnreadCount);
    (PUT, [Param; Lit "read"], MarkRead);
    (PUT, [Lit "read-all"], ReadAll);
    (DELETE, [Param], DeleteNotification);
    (DELETE, [Lit "clear-all"], ClearAll) ].

Module Fixtures6.

Definition note (userId : string) : InboxRow :=
  {| row_of := user_notification userId "order" "Order Shipped"
                 "Your order has been shipped" "/profile/orders";
     row_isRead := false |}.

(** Two notifications for Ann and one for Bob. *)
Definition inbox : Inbox :=
  {[ "n1" := note "ann"; "n2" := note "ann"; "n3" := note "bob" ]}.

End Fixtures6.

(** ** The order body as it comes over the wire *)

(** The value of [quantity] in the JSON text of the request.  The rule
    [isInt({ min: 1 })] tests the text of the value and converts
    nothing: a quantity reaches the handler as the number it was sent
    as, or as the string it was sent as.  The strings the rule lets
    through are those of decimal digits, with or without a sign; a
    string is given here by the integer it spells.  Whatever else is
    sent as a quantity is refused by the rule. *)
Inductive Quantity :=
| AsNumber (q : Z)
| AsText (q : Z).

(** [Number(quantity)]: what [<] and [*] make of the value. *)
Definition quantity_number (quantity : Quantity) : Z :=
  match quantity with AsNumber q | AsText q => q end.

Definition is_number (quantity : Quantity) : bool :=
  match quantity with AsNumber _ => true | AsText _ => false end.

Record WireItem := { wi_productId : string; wi_quantity : Quantity }.

Record WireBody := {
  w_items : list WireItem;
  w_shippingAddress : string;
  w_shippingCity : string;
  w_shippingZip : string
}.




(** The body with its quantities as numbers. *)
Definition typed_item (item : WireItem) : LineItem :=
  {| li_productId := wi_productId item;
     li_quantity := quantity_number (wi_quantity item) |}.

Definition typed_body (b : WireBody) : OrderBody :=
  {| items := map typed_item (w_items b);
     shippingAddress := w_shippingAddress b;
     shippingCity := w_shippingCity b;
     shippingZip := w_shippingZip b |}.

(** What the ORM throws at data that is not of the type of its column;
    the message is long, and only its last sentence is kept here. *)
Definition invalid_argument : JsError :=
  {| err_code := None; err_name := "PrismaClientValidationError";
     err_message := "Invalid value provided. Expected Int, provided String.";
     err_statusCode := None; err_target := None |}.

Section OrderWire.

Context (E : Env).

(** [POST /api/orders] on the body as sent.  The stock test, the total
    and the stock update take the quantity as a number ([<], [*] and
    the ORM's [decrement] on a number); the order items keep the
    quantity as it was sent, and [prisma.order.create], the first write
    of the handler, throws when one of them is a string. *)
Definition post_orders_wire (u : Identity) (b : WireBody) : action Empty_set :=
  let lines := map typed_item (w_items b) in
  priced ← for_of lines price_item (0%float, []);
  let total := priced.1 in
  order ←
    (if forallb (fun item => is_number (wi_quantity item)) (w_items b)
     then order_create
            {| ord_userId := user_id u; ord_total := total;
               ord_status := default_order_status;
               ord_receiptNumber := None; ord_completedAt := None;
               ord_shippingAddress := w_shippingAddress b;
               ord_shippingCity := w_shippingCity b;
               ord_shippingZip := w_shippingZip b;
               ord_items := priced.2 |}
     else throw invalid_argument);
  for_of lines decrement_item tt;;
  shopOwnerIds ← for_of order.2 add_shop_owner [];
  for_of shopOwnerIds (fun _ ownerId => notifyOrderCreated E order.1 total ownerId) tt;;
  send 201 (JOrder order.1 total default_order_status None).


End OrderWire.

(** ** Validation, in the words of the rules *)


(** The line item names an existing product with enough stock for the
    quantity, whether that was sent as a number or as a string. *)
Definition can_be_served (s : Store) (item : WireItem) : Prop :=
  ∃ p, products s !! wi_productId item = Some p
       ∧ match wi_quantity item with
         | AsNumber q | AsText q => q ≤ p_stock p
         end.



Module Fixtures7.


(** Two anvils, the quantity sent as the string of the digit 2. *)
Definition as_text : WireBody :=
  {| w_items := [ {| wi_productId := "A"; wi_quantity := AsText 2 |} ];
     w_shippingAddress := "1 Main St"; w_shippingCity := "Cebu";
     w_shippingZip := "6000" |}.


End Fixtures7.

(** * Properties *)

(** ** The authentication gate *)

Section GateProperties.

Context (E : Env).

Lemma decode_rejects req s :
  extractToken req ≫= verifyToken E = None →
  (∃ msg, decode E req s = (Sent {| status := 401; json := JError msg |}, s))
  ∨ (∃ e, decode E req s = (Thrown e, s)).
Proof.
  intros Hnone. unfold decode.
  destruct (Js.truthy_opt (extractToken req)).
  - rewrite Hnone. right. by eexists.
  - left. by eexists.
Qed.

Lemma decode_accepts req t d s :
  extractToken req = Some t → t ≠ "" → verifyToken E t = Some d →
  decode E req s = (Next d, s).
Proof.
  intros Ht Hne Hd. unfold decode. rewrite Ht. simpl.
  assert (Js.truthy t = true) as ->.
  { unfold Js.truthy. destruct (String.eqb_spec t ""); [done | reflexivity]. }
  by rewrite Hd.
Qed.

(** No credential: no truthy token cookie, and no Authorization header
    that starts with "Bearer ". *)
Lemma extractToken_None req :
  extractToken req = None
  ↔ Js.truthy_opt (cookies_token req) = false
    ∧ (headers_authorization req = None
       ∨ ∃ h, headers_authorization req = Some h
              ∧ Js.startsWith "Bearer " h = false).
Proof.
  unfold extractToken.
  destruct (cookies_token req) as [c |]; simpl.
  - destruct (Js.truthy c); simpl; [split; [done | by intros [? _]] |].
    destruct (headers_authorization req) as [h |]; [| split; [by auto | done]].
    destruct (Js.startsWith "Bearer " h) eqn:Hb.
    + split; [done |]. intros [_ [? | (h' & [= <-] & Hh)]]; congruence.
    + split; [| done]. intros _. split; [done |]. right. by exists h.
  - destruct (headers_authorization req) as [h |]; [| split; [by auto | done]].
    destruct (Js.startsWith "Bearer " h) eqn:Hb.
    + split; [done |]. intros [_ [? | (h' & [= <-] & Hh)]]; congruence.
    + split; [| done]. intros _. split; [done |]. right. by exists h.
Qed.

(** A request without a verifiable credential is answered 401 by
    every gate, which leaves the store as it was. *)
Lemma gate_rejects g req s :
  extractToken req ≫= verifyToken E = None →
  ∃ msg, gate E g req s = (Sent {| status := 401; json := JError msg |}, s).
Proof.
  intros Hnone.
  destruct (decode_rejects req s Hnone) as [[msg Hd] | [e Hd]];
    destruct g; simpl;
    unfold authenticate, authenticateUser, authenticateOwner,
      authenticateAdmin, try_catch, mbind, action_bind, bind;
    rewrite Hd; simpl; by eexists.
Qed.

(** C5: on every protected route (whatever the gate and the handler
    behind it), a request that carries no bearer credential, or one
    whose verification fails, is answered with status 401 and the
    store is left unchanged. *)
Theorem unauthenticated_request_401 (g : Gate)
    (handler : Identity → action Empty_set) (req : Request) (s : Store) :
  extractToken req = None
  ∨ (∃ t, extractToken req = Some t ∧ verifyToken E t = None) →
  ∃ msg, route E g handler req s
         = ({| status := 401; json := JError msg |}, s).
Proof.
  intros Hcred.
  assert (extractToken req ≫= verifyToken E = None) as Hnone.
  { destruct Hcred as [-> | (t & -> & Ht)]; [done | exact Ht]. }
  destruct (gate_rejects g req s Hnone) as [msg Hg].
  exists msg. unfold route, respond, mbind, action_bind, bind.
  by rewrite Hg.
Qed.

(** C4: behind the owner gate, a request with a valid owner-role
    credential whose owner record is not approved is answered 403 with
    code PENDING_APPROVAL; the handler does not run and the store is
    unchanged. *)
Theorem unapproved_owner_403 (handler : Identity → action Empty_set)
    (req : Request) (s : Store) (t : string) (d : Decoded) (o : Owner) :
  extractToken req = Some t → t ≠ "" →
  verifyToken E t = Some d →
  d_role d = "owner" →
  owners s !! d_id d = Some o →
  o_approved o = false →
  route E OwnerOnly handler req s
  = ({| status := 403;
        json := JErrorCode "Your account is pending approval."
                  "PENDING_APPROVAL" |}, s).
Proof.
  intros Ht Hne Hd Hrole Ho Happ.
  unfold route, respond, gate, authenticateOwner, try_catch,
    mbind, action_bind, bind.
  rewrite (decode_accepts req t d s Ht Hne Hd), Hrole. simpl.
  unfold read. by rewrite Ho, Happ.
Qed.

End GateProperties.

(** C5 at work: an anonymous request and a forged token on the order
    creation route. *)
Lemma unauthenticated_request_401_witness :
  (∃ msg, serve Demo.env Demo.amb
            (PostOrders (Demo.order_body [Demo.line "A" 2])) Demo.anonymous
            Demo.store
          = ({| status := 401; json := JError msg |}, Demo.store))
  ∧ (∃ msg, serve Demo.env Demo.amb (PutOrdersConfirm "order")
              (Demo.bearer "forged") Demo.store
            = ({| status := 401; json := JError msg |}, Demo.store)).
Proof.
  split.
  - apply (unauthenticated_request_401 Demo.env). left. reflexivity.
  - apply (unauthenticated_request_401 Demo.env). right.
    exists "forged". split; reflexivity.
Defined.

(** C4 at work: Oscar, whose owner account awaits approval, on the
    status route. *)
Lemma unapproved_owner_403_witness :
  serve Demo.env Demo.amb (PutOrdersStatus "order" "shipped")
    (Demo.bearer "tok-oscar") Demo.store
  = ({| status := 403;
        json := JErrorCode "Your account is pending approval."
                  "PENDING_APPROVAL" |}, Demo.store).
Proof.
  apply (unapproved_owner_403 Demo.env _ _ _ "tok-oscar"
           {| d_id := "oscar"; d_email := "oscar@x"; d_role := "owner" |}
           {| o_email := "oscar@x"; o_businessName := "Oscar";
              o_approved := false |});
    first [ reflexivity | discriminate ].
Defined.

(** ** Order creation *)

Ltac run := unfold mbind, action_bind, bind, read, ret, send, throw; simpl.

Section OrderCreation.

Context (E : Env).

Implicit Types (s : Store) (item : LineItem) (l : list LineItem).

(** *** The pricing loop *)

Lemma price_item_in_stock s item acc :
  in_stock s item →
  price_item acc item s
  = (Next ((acc.1 + line_amount s item)%float, acc.2 ++ [snapshot s item]), s).
Proof.
  intros (p & Hp & Hq). unfold price_item, line_amount, snapshot, line_price.
  run. rewrite Hp. simpl.
  destruct (Z.ltb_spec (p_stock p) (li_quantity item)); [lia | done].
Qed.

Lemma price_items_in_stock s l acc :
  Forall (in_stock s) l →
  for_of l price_item acc s
  = (Next (foldl (λ a item, (a + line_amount s item)%float) acc.1 l,
           acc.2 ++ map (snapshot s) l), s).
Proof.
  intros Hall. revert acc.
  induction Hall as [| item l Hitem _ IH]; intros acc; simpl.
  - unfold ret. rewrite app_nil_r. by destruct acc.
  - unfold mbind, action_bind, bind.
    rewrite (price_item_in_stock s item acc Hitem), IH. simpl.
    by rewrite <- app_assoc.
Qed.

Lemma price_items_short s pre item post acc :
  Forall (in_stock s) pre →
  ∀ p, products s !! li_productId item = Some p →
       p_stock p < li_quantity item →
  for_of (pre ++ item :: post) price_item acc s
  = (Sent {| status := 400;
             json := JError ("Insufficient stock for " +:+ p_name p) |}, s).
Proof.
  intros Hpre p Hp Hq. revert acc.
  induction Hpre as [| x pre Hx _ IH]; intros acc; simpl.
  - unfold mbind, action_bind, bind, price_item. run. rewrite Hp. simpl.
    destruct (Z.ltb_spec (p_stock p) (li_quantity item)); [done | lia].
  - unfold mbind, action_bind, bind.
    rewrite (price_item_in_stock s x acc Hx). apply IH.
Qed.

Lemma price_items_missing s pre item post acc :
  Forall (in_stock s) pre →
  products s !! li_productId item = None →
  for_of (pre ++ item :: post) price_item acc s
  = (Sent {| status := 404;
             json := JError ("Product " +:+ li_productId item +:+ " not found") |},
     s).
Proof.
  intros Hpre Hp. revert acc.
  induction Hpre as [| x pre Hx _ IH]; intros acc; simpl.
  - unfold mbind, action_bind, bind, price_item. run. by rewrite Hp.
  - unfold mbind, action_bind, bind.
    rewrite (price_item_in_stock s x acc Hx). apply IH.
Qed.

(** *** The stock loop *)

Lemma set_products_alter s pid (f : Product → Product) p :
  products s !! pid = Some p →
  set_products (insert pid (f p)) s = set_products (alter f pid) s.
Proof.
  intros Hp. unfold set_products. f_equal.
  apply map_eq. intros k. rewrite lookup_insert, lookup_alter.
  case_decide; subst; by rewrite ?Hp.
Qed.

Lemma decrement_items_exist s l :
  Forall (λ item, is_Some (products s !! li_productId item)) l →
  for_of l decrement_item tt s = (Next tt, set_products (decremented l) s).
Proof.
  intros Hall. revert s Hall. induction l as [| item l IH]; intros s Hall.
  - simpl. unfold ret. by destruct s.
  - inversion Hall as [| ? ? [p Hp] Hrest]; subst. simpl.
    unfold decrement_item, product_update, mbind, action_bind, bind, ret.
    rewrite Hp, (set_products_alter s _ _ p Hp).
    rewrite IH; [done |].
    eapply Forall_impl; [exact Hrest |]. intros x [q Hq]. simpl.
    rewrite lookup_alter. case_decide; subst; rewrite ?Hp, ?Hq; by eexists.
Qed.

Lemma decrement_decrement a c p :
  decrement a (decrement c p) = decrement (c + a) p.
Proof. unfold decrement. simpl. f_equal. lia. Qed.

Lemma decrement_zero p : decrement 0 p = p.
Proof. destruct p. unfold decrement. simpl. f_equal. lia. Qed.

(** After the loop each product has lost what the request asks of it
    over all its lines, and nothing else about it has changed. *)
Lemma decremented_lookup l (m : gmap string Product) pid :
  decremented l m !! pid = decrement (requested pid l) <$> m !! pid.
Proof.
  revert m. induction l as [| item l IH]; intros m; simpl.
  - destruct (m !! pid) as [p |]; simpl; [by rewrite decrement_zero | done].
  - unfold decremented in *. rewrite IH, lookup_alter.
    case_bool_decide as Heq; case_decide as Heq'; try congruence.
    rewrite Heq. destruct (m !! pid) as [p |]; simpl; [| done].
    by rewrite decrement_decrement, Z.add_comm.
Qed.

(** *** The owners loop *)

Lemma add_shop_owner_spec s0 s oi acc :
  shops s = shops s0 →
  add_shop_owner acc (oi, products s0 !! oi_productId oi) s
  = (Next (match shop_owner s0 (oi_productId oi) with
           | Some o => Js.Set_add o acc
           | None => acc
           end), s).
Proof.
  intros Hshops. unfold add_shop_owner, shop_owner. simpl.
  destruct (products s0 !! oi_productId oi) as [p |]; simpl; [| done].
  destruct (Js.truthy (p_shopId p)); [| done].
  run. rewrite Hshops.
  destruct (shops s0 !! p_shopId p) as [sh |]; simpl; [| done].
  by destruct (Js.truthy (shop_ownerId sh)).
Qed.

Lemma owners_loop s0 s l acc :
  shops s = shops s0 →
  for_of (map (λ it, (it, products s0 !! oi_productId it)) (map (snapshot s0) l))
    add_shop_owner acc s
  = (Next (distinct_owners s0 (map li_productId l) acc), s).
Proof.
  intros Hshops. revert acc. induction l as [| item l IH]; intros acc.
  - done.
  - cbn [map for_of]. unfold mbind, action_bind, bind.
    rewrite (add_shop_owner_spec s0 s (snapshot s0 item) acc Hshops).
    apply IH.
Qed.

Lemma Set_add_NoDup x (l : list string) : NoDup l → NoDup (Js.Set_add x l).
Proof.
  intros Hl. unfold Js.Set_add. case_bool_decide; [done |].
  apply NoDup_app. split; [done |]. split; [| apply NoDup_singleton].
  intros y Hy Hin. apply list_elem_of_singleton in Hin. by subst.
Qed.

Lemma Set_add_elem x y (l : list string) : y ∈ Js.Set_add x l ↔ y = x ∨ y ∈ l.
Proof.
  unfold Js.Set_add. case_bool_decide.
  - split; [by right | intros [-> |]; done].
  - rewrite elem_of_app, list_elem_of_singleton. tauto.
Qed.



(** *** The notification loop *)

Lemma notifyOrderCreated_spec orderId total o s :
  notifyOrderCreated E orderId total o s
  = (Next tt,
     set_notifications
       (λ ns, ns ++ filter (accepted E)
                      [order_created_notification E orderId total o]) s).
Proof.
  unfold notifyOrderCreated, notifyOwner, try_catch, notification_create,
    mbind, action_bind, bind, ret.
  change (owner_notification o "order" "New Order Received"
            (order_created_message E orderId total) "/dashboard/orders")
    with (order_created_notification E orderId total o).
  rewrite filter_cons, filter_nil. unfold accepted.
  destruct (notification_fault E (order_created_notification E orderId total o));
    simpl; [| done].
  unfold set_notifications. rewrite app_nil_r. by destruct s.
Qed.

Lemma notify_loop orderId total ids s :
  for_of ids (λ _ ownerId, notifyOrderCreated E orderId total ownerId) tt s
  = (Next tt,
     set_notifications
       (λ ns, ns ++ filter (accepted E)
                      (map (order_created_notification E orderId total) ids)) s).
Proof.
  revert s. induction ids as [| o ids IH]; intros s.
  - simpl. unfold ret, set_notifications. rewrite app_nil_r. by destruct s.
  - cbn [for_of map]. unfold mbind, action_bind, bind.
    rewrite notifyOrderCreated_spec, IH. unfold set_notifications. simpl.
    rewrite <- app_assoc.
    by rewrite (filter_app (λ n, accepted E n : Prop)
                  [order_created_notification E orderId total o]
                  (map (order_created_notification E orderId total) ids)).
Qed.


(** *** The whole handler on a request it accepts *)

Lemma in_stock_exists s l :
  Forall (in_stock s) l →
  Forall (λ item, is_Some (products s !! li_productId item)) l.
Proof.
  intros Hall. eapply Forall_impl; [exact Hall |].
  intros item (p & Hp & _). by exists p.
Qed.

Lemma post_orders_in_stock (u : Identity) (b : OrderBody) s :
  Forall (in_stock s) (items b) →
  respond (post_orders E u b) s
  = ({| status := 201;
        json := JOrder (new_order_id s) (sum_of_lines s (items b))
                  default_order_status None |},
     set_notifications
       (λ ns, ns ++ filter (accepted E)
                 (map (order_created_notification E (new_order_id s)
                         (sum_of_lines s (items b)))
                    (distinct_owners s (map li_productId (items b)) [])))
       (set_products (decremented (items b))
          (set_orders (insert (new_order_id s) (new_order u b s)) s))).
Proof.
  intros Hall.
  unfold respond, post_orders, mbind, action_bind, bind.
  rewrite (price_items_in_stock s (items b) _ Hall). cbn [fst snd app].
  unfold order_create. cbn [fst snd].
  fold (sum_of_lines s (items b)). fold (new_order_id s).
  fold (new_order u b s).
  rewrite decrement_items_exist by (by apply in_stock_exists).
  rewrite (owners_loop s _ (items b) []) by reflexivity.
  by rewrite notify_loop.
Qed.

(** The other refusal: the first line item that cannot be served names
    a product that does not exist.  The answer is 404, and again
    nothing is written. *)
Lemma missing_product_404 (u : Identity) (b : OrderBody) (s : Store)
    (pre post : list LineItem) (item : LineItem) :
  items b = pre ++ item :: post →
  Forall (in_stock s) pre →
  products s !! li_productId item = None →
  respond (post_orders E u b) s
  = ({| status := 404;
        json := JError ("Product " +:+ li_productId item +:+ " not found") |}, s).
Proof.
  intros Hitems Hpre Hp.
  unfold respond, post_orders, mbind, action_bind, bind.
  by rewrite Hitems, (price_items_missing s pre item post _ Hpre Hp).
Qed.


(** With numbers only, the handler on the body as sent is the handler
    on the typed body. *)
Lemma post_orders_wire_numbers (u : Identity) (wb : WireBody) :
  forallb (λ wi, is_number (wi_quantity wi)) (w_items wb) = true →
  post_orders_wire E u wb = post_orders E u (typed_body wb).
Proof. intros Hnum. unfold post_orders_wire, post_orders. by rewrite Hnum. Qed.

Lemma all_numbers (ws : list WireItem) :
  Forall (λ wi, ∃ q, wi_quantity wi = AsNumber q) ws
  ↔ forallb (λ wi, is_number (wi_quantity wi)) ws = true.
Proof.
  induction ws as [| wi ws IH]; simpl; [by split |].
  rewrite Forall_cons, andb_true_iff, IH.
  destruct (wi_quantity wi) as [q | q]; simpl; split.
  - by intros [_ ?].
  - intros [_ ?]. split; [by exists q | done].
  - by intros [[? [=]] _].
  - by intros [[=] _].
Qed.

Lemma only_one {A} (a : A) (xs : list A) :
  NoDup xs → (∀ x, x ∈ xs ↔ x = a) → xs = [a].
Proof.
  intros Hnd Hmem. destruct xs as [| x xs].
  - by destruct (not_elem_of_nil a); apply Hmem.
  - assert (x = a) as -> by (apply Hmem; left).
    destruct xs as [| y xs]; [done |].
    assert (y = a) as -> by (apply Hmem; right; left).
    apply NoDup_cons in Hnd as [Hnotin _]. destruct Hnotin. left.
Qed.




(** C10: the stock check looks at each line item on its own.  For a
    request with two line items for the same product, each within the
    stock but together beyond it, the order is accepted (201) and the
    stock stored for the product afterwards is negative. *)
Theorem duplicate_lines_oversell (u : Identity) (b : OrderBody) (s : Store)
    (pid : string) (q1 q2 : Z) (p : Product) :
  items b = [ {| li_productId := pid; li_quantity := q1 |};
              {| li_productId := pid; li_quantity := q2 |} ] →
  products s !! pid = Some p →
  q1 ≤ p_stock p → q2 ≤ p_stock p → p_stock p < q1 + q2 →
  status (respond (post_orders E u b) s).1 = 201
  ∧ ∃ p', products (respond (post_orders E u b) s).2 !! pid = Some p'
          ∧ p_stock p' = p_stock p - q1 - q2
          ∧ p_stock p' < 0.
Proof.
  intros Hitems Hp Hq1 Hq2 Hsum.
  assert (Forall (in_stock s) (items b)) as Hall.
  { rewrite Hitems. repeat constructor; exists p; by split. }
  rewrite (post_orders_in_stock u b s Hall). cbn [fst snd]. split; [done |].
  simpl. rewrite decremented_lookup, Hp, Hitems. simpl.
  rewrite !bool_decide_eq_true_2 by done.
  eexists. split; [done |]. simpl. lia.
Qed.

End OrderCreation.




(** The same request, evaluated: total 25, stock 5 to 3 and 3 to 2, and
    one notification although Olga supplies both items. *)
Example order_creation_example :
  let r := serve Demo.env Demo.amb
             (PostOrders (Demo.order_body [Demo.line "A" 2; Demo.line "B" 1]))
             (Demo.bearer "tok-ann") Demo.store in
  r.1 = {| status := 201; json := JOrder "order" 25 "pending" None |}
  ∧ p_stock <$> products r.2 !! "A" = Some 3
  ∧ p_stock <$> products r.2 !! "B" = Some 2
  ∧ n_ownerId <$> notifications r.2 = [Some "olga"].
Proof. vm_compute. repeat split; reflexivity. Qed.

(** C10 at work: three anvils and three more, five in stock. *)
Lemma duplicate_lines_oversell_witness :
  let b := Demo.order_body [Demo.line "A" 3; Demo.line "A" 3] in
  let r := respond (post_orders Demo.env Demo.ann b) Demo.store in
  status r.1 = 201
  ∧ ∃ p', products r.2 !! "A" = Some p' ∧ p_stock p' = 5 - 3 - 3 ∧ p_stock p' < 0.
Proof.
  apply (duplicate_lines_oversell Demo.env Demo.ann _ Demo.store "A" 3 3
           (Demo.product "Anvil" 10 5)).
  - reflexivity.
  - reflexivity.
  - simpl. lia.
  - simpl. lia.
  - simpl. lia.
Defined.

(** ** The wishlist toggle *)

Section Wishlist.

Context (E : Env).

Implicit Types (l : list string) (p : string).

Lemma filter_absent p l : p ∉ l → filter (λ id, id ≠ p) l = l.
Proof.
  induction l as [| x l IH]; intros Hp; [done |].
  apply not_elem_of_cons in Hp as [Hne Hp].
  rewrite filter_cons_True by congruence. by rewrite IH.
Qed.

Lemma filter_removes p l : p ∉ filter (λ id, id ≠ p) l.
Proof. rewrite list_elem_of_filter. tauto. Qed.

Lemma toggle_absent p l : p ∉ l → toggle p l = l ++ [p].
Proof. intros Hp. unfold toggle. by rewrite bool_decide_eq_false_2. Qed.

Lemma toggle_present p l : p ∈ l → toggle p l = filter (λ id, id ≠ p) l.
Proof. intros Hp. unfold toggle. by rewrite bool_decide_eq_true_2. Qed.

(** Toggling an absent id twice gives the list back. *)
Lemma toggle_twice_absent p l : p ∉ l → toggle p (toggle p l) = l.
Proof.
  intros Hp. rewrite (toggle_absent p l Hp), toggle_present by set_solver.
  rewrite filter_app, (filter_absent p l Hp), filter_cons_False by tauto.
  by rewrite filter_nil, app_nil_r.
Qed.

(** Toggling a present id twice moves it to the end. *)
Lemma toggle_twice_present p l :
  p ∈ l → toggle p (toggle p l) = filter (λ id, id ≠ p) l ++ [p].
Proof.
  intros Hp. rewrite (toggle_present p l Hp).
  apply toggle_absent, filter_removes.
Qed.

Lemma toggle_twice_elem p l x : x ∈ toggle p (toggle p l) ↔ x ∈ l.
Proof.
  destruct (decide (p ∈ l)) as [Hp | Hp].
  - rewrite (toggle_twice_present p l Hp), elem_of_app, list_elem_of_filter,
      list_elem_of_singleton.
    split; [intros [[_ ?] | ->]; done |].
    intros Hx. destruct (decide (x = p)); [by right | by left].
  - by rewrite (toggle_twice_absent p l Hp).
Qed.

Lemma put_users_wishlist_spec (u : Identity) p (s : Store) (usr : User) :
  users s !! user_id u = Some usr →
  respond (put_users_wishlist E u p) s
  = ({| status := 200;
        json := JWishlist (toggle p (current_wishlist E (u_wishlist usr))) |},
     set_users
       (insert (user_id u)
          (with_wishlist (toggle p (current_wishlist E (u_wishlist usr))) usr))
       s).
Proof.
  intros Hu. unfold respond, put_users_wishlist, user_update. run.
  rewrite Hu. simpl. by rewrite Hu.
Qed.

(** C8, as the code has it: two toggles of the same product id in a
    row leave a wishlist with the same ids as before.  It is the
    original ordered collection when the id was not in it; when the
    id was in it, the id has moved to the end. *)
Theorem wishlist_toggle_twice (u : Identity) (productId : string)
    (s : Store) (usr : User) :
  users s !! user_id u = Some usr →
  ∃ stored : list string,
    users (respond (put_users_wishlist E u productId)
             (respond (put_users_wishlist E u productId) s).2).2
      !! user_id u
    = Some (with_wishlist stored usr)
    ∧ (∀ x, x ∈ stored ↔ x ∈ current_wishlist E (u_wishlist usr))
    ∧ (productId ∉ current_wishlist E (u_wishlist usr) →
       stored = current_wishlist E (u_wishlist usr))
    ∧ (productId ∈ current_wishlist E (u_wishlist usr) →
       stored = filter (λ id, id ≠ productId)
                  (current_wishlist E (u_wishlist usr)) ++ [productId]).
Proof.
  intros Hu. set (l := current_wishlist E (u_wishlist usr)).
  exists (toggle productId (toggle productId l)).
  rewrite (put_users_wishlist_spec u productId s usr Hu). cbn [snd].
  erewrite put_users_wishlist_spec by (simpl; apply lookup_insert_eq).
  cbn [snd]. simpl. rewrite insert_insert_eq, lookup_insert_eq.
  repeat split.
  - by apply toggle_twice_elem.
  - by apply toggle_twice_elem.
  - apply toggle_twice_absent.
  - apply toggle_twice_present.
Qed.

End Wishlist.

(** C8 at work: Ann's seeded wishlist, the string "[]", and product A. *)
Lemma wishlist_toggle_twice_witness :
  ∃ stored : list string,
    users (respond (put_users_wishlist Demo.env Demo.ann "A")
             (respond (put_users_wishlist Demo.env Demo.ann "A") Demo.store).2).2
      !! "ann"
    = Some {| u_email := "ann@x"; u_wishlist := WArray stored |}
    ∧ (∀ x, x ∈ stored ↔ x ∈ @nil string)
    ∧ ("A" ∉ @nil string → stored = [])
    ∧ ("A" ∈ @nil string → stored = ["A"]).
Proof.
  apply (wishlist_toggle_twice Demo.env Demo.ann "A" Demo.store
           {| u_email := "ann@x"; u_wishlist := WString "[]" |}).
  reflexivity.
Defined.

(** C8 as stated does not hold for an ordered collection: with the
    wishlist [A; B] stored, toggling A twice leaves [B; A]. *)
Lemma wishlist_toggle_twice_reorders :
  let s0 := set_users
              (insert "ann" {| u_email := "ann@x"; u_wishlist := WArray ["A"; "B"] |})
              Demo.store in
  let put := serve Demo.env Demo.amb (PutUsersWishlist "A") (Demo.bearer "tok-ann") in
  u_wishlist <$> users s0 !! "ann" = Some (WArray ["A"; "B"])
  ∧ u_wishlist <$> users (put (put s0).2).2 !! "ann" = Some (WArray ["B"; "A"])
  ∧ users (put (put s0).2).2 !! "ann" ≠ users s0 !! "ann".
Proof.
  split; [| split].
  - reflexivity.
  - vm_compute. reflexivity.
  - vm_compute. discriminate.
Qed.

(** ** Order confirmation *)

Lemma respond_bind {A} (m : action A) (k : A → action Empty_set) (s : Store) :
  respond (m ≫= k) s
  = match m s with
    | (Next a, s') => respond (k a) s'
    | (Sent r, s') => (r, s')
    | (Thrown e, s') => (errorHandler e, s')
    end.
Proof.
  unfold respond, mbind, action_bind, bind.
  by destruct (m s) as [[a | r | e] s'].
Qed.

Section Confirmation.

Context (E : Env).

Lemma add_item_owner_spec s item acc :
  add_item_owner acc item s
  = (Next (if Js.truthy_opt (item_owner s item)
           then Js.Set_add (default "" (item_owner s item)) acc
           else acc), s).
Proof.
  unfold add_item_owner, item_owner, read. cbv [mbind action_bind bind ret].
  by destruct (Js.truthy_opt _).
Qed.

Lemma confirm_owners_loop s l acc :
  for_of l add_item_owner acc s = (Next (confirm_owners s l acc), s).
Proof.
  revert acc. induction l as [| item l IH]; intros acc; [done |].
  cbn [for_of]. unfold mbind, action_bind, bind.
  rewrite add_item_owner_spec. apply IH.
Qed.

Lemma direct_notify_loop (mk : string → Notification) ids s :
  (∀ n, notification_fault E n = None) →
  for_of ids (λ (_ : unit) ownerId, notification_create E (mk ownerId);; ret tt) tt s
  = (Next tt, set_notifications (λ ns, ns ++ map mk ids) s).
Proof.
  intros Hok. revert s. induction ids as [| w ids IH]; intros s.
  - simpl. unfold ret, set_notifications. rewrite app_nil_r. by destruct s.
  - cbn [for_of map]. unfold mbind, action_bind, bind, notification_create at 1, ret.
    rewrite Hok, IH. unfold set_notifications. simpl.
    by rewrite <- app_assoc.
Qed.

Lemma direct_notify_fails (mk : string → Notification) w ids e s :
  notification_fault E (mk w) = Some e →
  for_of (w :: ids) (λ (_ : unit) ownerId, notification_create E (mk ownerId);; ret tt) tt s
  = (Thrown e, s).
Proof.
  intros He. cbn [for_of].
  unfold mbind, action_bind, bind, notification_create at 1. by rewrite He.
Qed.

(** Up to the notifications: the order is completed and stamped. *)
Lemma confirm_prefix amb u id o s (k : list string → action Empty_set) :
  confirmable s u id o →
  respond
    (order ← read (λ s, orders s !! id);
     match order with
     | None => send 404 (JError "Order not found")
     | Some o =>
         if negb (String.eqb (ord_userId o) (user_id u)) then
           send 403 (JError "Access denied")
         else if negb (String.eqb (ord_status o) "delivered") then
           send 400 (JError "Can only confirm delivered orders")
         else if Js.truthy_opt (ord_receiptNumber o) then
           send 400 (JErrorReceipt "Order has already been confirmed"
                       (default "" (ord_receiptNumber o)))
         else
           shopOwnerIds ← for_of (ord_items o) add_item_owner [];
           order_update id (completed amb);; k shopOwnerIds
     end) s
  = respond (k (confirm_owners s (ord_items o) []))
      (set_orders (insert id (completed amb o)) s).
Proof.
  intros (Ho & Hu & Hst & Hrc).
  unfold respond, mbind, action_bind, bind, read. rewrite Ho, Hu, Hst, Hrc.
  rewrite String.eqb_refl. simpl.
  rewrite confirm_owners_loop. unfold order_update. by rewrite Ho.
Qed.

(** A delivered, unconfirmed order of the caller is confirmed: status
    200, receipt in the answer, order completed and stamped, one
    notification per distinct shop owner. *)
Lemma confirm_delivered amb u id o s :
  confirmable s u id o →
  (∀ n, notification_fault E n = None) →
  respond (put_orders_confirm E amb u id) s
  = ({| status := 200;
        json := JConfirmed "Order confirmed successfully" (receipt_number amb) id |},
     set_notifications
       (λ ns, ns ++ map (λ w, order_completed_notification w id (receipt_number amb))
                      (confirm_owners s (ord_items o) []))
       (set_orders (insert id (completed amb o)) s)).
Proof.
  intros Hc Hok. unfold put_orders_confirm.
  rewrite (confirm_prefix amb u id o s _ Hc).
  by rewrite respond_bind, (direct_notify_loop _ _ _ Hok).
Qed.

(** If the database refuses the first notification row, the error goes
    to [errorHandler]; the order stays completed. *)
Lemma confirm_notification_refused amb u id o s w ws e :
  confirmable s u id o →
  confirm_owners s (ord_items o) [] = w :: ws →
  notification_fault E (order_completed_notification w id (receipt_number amb))
  = Some e →
  respond (put_orders_confirm E amb u id) s
  = (errorHandler e, set_orders (insert id (completed amb o)) s).
Proof.
  intros Hc Hw He. unfold put_orders_confirm.
  rewrite (confirm_prefix amb u id o s _ Hc), Hw.
  by rewrite respond_bind,
       (direct_notify_fails
          (λ w, order_completed_notification w id (receipt_number amb))
          w ws e _ He).
Qed.

(** An order of the caller in any status but "delivered" is refused with
    the invalid-state answer, whether it has a receipt or not. *)
Lemma confirm_not_delivered amb u id o s :
  orders s !! id = Some o →
  ord_userId o = user_id u →
  ord_status o ≠ "delivered" →
  respond (put_orders_confirm E amb u id) s
  = ({| status := 400; json := JError "Can only confirm delivered orders" |}, s).
Proof.
  intros Ho Hu Hst. unfold respond, put_orders_confirm. run.
  rewrite Ho, Hu, String.eqb_refl. simpl.
  by destruct (String.eqb_spec (ord_status o) "delivered").
Qed.

(** The receipt is "RCP-", the date without dashes, "-", and at most
    eight characters of the random source. *)
Lemma receipt_number_form amb :
  receipt_number amb
  = "RCP-" +:+ Js.remove_dashes (Js.substring 0 10 (now_iso amb)) +:+ "-"
      +:+ Js.toUpperCase (Js.substring 2 10 (random36 amb))
  ∧ (String.length (Js.toUpperCase (Js.substring 2 10 (random36 amb))) ≤ 8)%nat.
Proof.
  split; [done |]. unfold Js.substring. simpl.
  generalize (random36 amb). intros r.
  assert (∀ x, String.length (Js.toUpperCase x) = String.length x) as ->.
  { induction x as [| c x IH]; simpl; [done | by rewrite IH]. }
  assert (∀ n k x, (String.length (String.substring n k x) ≤ k)%nat) as Hsub.
  { induction n as [| n IHn]; intros k x.
    - revert x. induction k as [| k IHk]; intros [| c x]; simpl; try lia.
      specialize (IHk x). lia.
    - destruct x as [| c x]; simpl; [lia | apply IHn]. }
  apply Hsub.
Qed.

(** C3, what the code does: the first confirmation of a delivered order
    succeeds, assigns the receipt and completes the order; a second
    confirmation is then refused by the status check, with the
    invalid-state answer, which carries no receipt, and not by the
    already-confirmed check. *)
Theorem confirm_twice (amb amb' : Ambient) (u : Identity) (id : string)
    (o : Order) (s : Store) :
  confirmable s u id o →
  (∀ n, notification_fault E n = None) →
  (respond (put_orders_confirm E amb u id) s).1
  = {| status := 200;
       json := JConfirmed "Order confirmed successfully" (receipt_number amb) id |}
  ∧ orders (respond (put_orders_confirm E amb u id) s).2 !! id
    = Some (completed amb o)
  ∧ respond (put_orders_confirm E amb' u id)
      (respond (put_orders_confirm E amb u id) s).2
    = ({| status := 400; json := JError "Can only confirm delivered orders" |},
       (respond (put_orders_confirm E amb u id) s).2).
Proof.
  intros Hc Hok. rewrite (confirm_delivered amb u id o s Hc Hok). cbn [fst snd].
  assert (orders (set_notifications
                    (λ ns, ns ++ map (λ w, order_completed_notification w id
                                             (receipt_number amb))
                                   (confirm_owners s (ord_items o) []))
                    (set_orders (insert id (completed amb o)) s)) !! id
          = Some (completed amb o)) as Hnow.
  { simpl. apply lookup_insert_eq. }
  split; [done |]. split; [exact Hnow |].
  apply (confirm_not_delivered amb' u id _ _ Hnow).
  - simpl. by destruct Hc as (_ & ? & _).
  - discriminate.
Qed.

End Confirmation.

(** C3 at work: Ann confirms her delivered order twice. *)
Lemma confirm_twice_witness :
  let first := respond (put_orders_confirm Demo.env Demo.amb Demo.ann "ord1")
                 Demo.delivered in
  first.1 = {| status := 200;
               json := JConfirmed "Order confirmed successfully"
                         "RCP-20250309-K3J9X2MQ" "ord1" |}
  ∧ orders first.2 !! "ord1" = Some (completed Demo.amb (Demo.anvils "delivered" None))
  ∧ respond (put_orders_confirm Demo.env Demo.amb Demo.ann "ord1") first.2
    = ({| status := 400; json := JError "Can only confirm delivered orders" |},
       first.2).
Proof.
  apply (confirm_twice Demo.env Demo.amb Demo.amb Demo.ann "ord1"
           (Demo.anvils "delivered" None) Demo.delivered).
  - repeat split; reflexivity.
  - intros n. reflexivity.
Defined.

(** The random part is shorter than eight characters when the random
    number has a short expansion in base 36: one half is "0.i". *)
Example receipt_random_part_short :
  receipt_number {| now_iso := "2025-03-09T10:15:30.000Z"; random36 := "0.i" |}
  = "RCP-20250309-I".
Proof. reflexivity. Qed.

(** The already-confirmed answer does exist, but a confirmed order only
    meets it after an owner has put it back to "delivered". *)
Example already_confirmed_after_reset :
  let confirm := serve Demo.env Demo.amb (PutOrdersConfirm "ord1")
                   (Demo.bearer "tok-ann") in
  let reset := serve Demo.env Demo.amb (PutOrdersStatus "ord1" "delivered")
                 (Demo.bearer "tok-olga") in
  (confirm (reset (confirm Demo.delivered).2).2).1
  = {| status := 400;
       json := JErrorReceipt "Order has already been confirmed"
                 "RCP-20250309-K3J9X2MQ" |}.
Proof. vm_compute. reflexivity. Qed.

(** ** Notification failures *)

(** C7, what the code does when the database refuses notification rows.
    Order creation and the status update still answer 201 and 200.  The
    confirmation and the product approval, which insert the row
    themselves, answer 500, although the order is by then completed and
    stamped and the product approved. *)
Theorem notification_failure_outcomes :
  let create := serve Demo.env_failing Demo.amb
                  (PostOrders (Demo.order_body [Demo.line "A" 2]))
                  (Demo.bearer "tok-ann") Demo.store in
  let update := serve Demo.env_failing Demo.amb
                  (PutOrdersStatus "ord1" "shipped") (Demo.bearer "tok-olga")
                  Demo.delivered in
  let confirm := serve Demo.env_failing Demo.amb (PutOrdersConfirm "ord1")
                   (Demo.bearer "tok-ann") Demo.delivered in
  let approve := serve Demo.env_failing Demo.amb (PutAdminProductsApprove "C")
                   (Demo.bearer "tok-root") Demo.store in
  (status create.1 = 201 ∧ notifications create.2 = [])
  ∧ (status update.1 = 200 ∧ notifications update.2 = [])
  ∧ (confirm.1 = {| status := 500; json := JError "Can't reach database server" |}
     ∧ orders confirm.2 !! "ord1"
       = Some (completed Demo.amb (Demo.anvils "delivered" None)))
  ∧ (approve.1 = {| status := 500; json := JError "Can't reach database server" |}
     ∧ p_status <$> products approve.2 !! "C" = Some "approved").
Proof. vm_compute. repeat split; reflexivity. Qed.

(** ** The order status update *)

Section StatusUpdate.

Context (E : Env).

Lemma truthy_ne (t : string) : Js.truthy t = true ↔ t ≠ "".
Proof.
  unfold Js.truthy. destruct (String.eqb_spec t ""); simpl; split; congruence.
Qed.











End StatusUpdate.


(** ** Completed orders carry a receipt *)

Section Invariant.

Context (E : Env).

Lemma preserves_ret {A} (a : A) : preserves (ret a).
Proof. by intros s. Qed.

Lemma preserves_read {A} (f : Store → A) : preserves (read f).
Proof. by intros s. Qed.

Lemma preserves_send {A} code body : preserves (@send A code body).
Proof. by intros s. Qed.

Lemma preserves_throw {A} e : preserves (@throw A e).
Proof. by intros s. Qed.

Lemma preserves_bind {A B} (m : action A) (k : A → action B) :
  preserves m → (∀ a, preserves (k a)) → preserves (m ≫= k).
Proof.
  intros Hm Hk s Hs. unfold mbind, action_bind, bind.
  specialize (Hm s Hs). destruct (m s) as [[a | r | e] s']; simpl in *; [| done..].
  by apply Hk.
Qed.

Lemma preserves_try_catch {A} (m : action A) (h : JsError → action A) :
  preserves m → (∀ e, preserves (h e)) → preserves (try_catch m h).
Proof.
  intros Hm Hh s Hs. unfold try_catch.
  specialize (Hm s Hs). destruct (m s) as [[a | r | e] s']; simpl in *; [done.. |].
  by apply Hh.
Qed.

Lemma preserves_for_of {A S} (l : list A) (body : S → A → action S) acc :
  (∀ acc x, preserves (body acc x)) → preserves (for_of l body acc).
Proof.
  intros Hbody. revert acc. induction l as [| x l IH]; intros acc; simpl.
  - apply preserves_ret.
  - apply preserves_bind; [apply Hbody | apply IH].
Qed.

Lemma preserves_validate errors : preserves (validate errors).
Proof. destruct errors; [apply preserves_ret | apply preserves_send]. Qed.

Lemma preserves_notification_create n : preserves (notification_create E n).
Proof.
  intros s Hs. unfold notification_create.
  by destruct (notification_fault E n).
Qed.

Lemma preserves_product_update id f : preserves (product_update id f).
Proof. intros s Hs. unfold product_update. by destruct (products s !! id). Qed.

Lemma preserves_user_update id f : preserves (user_update id f).
Proof. intros s Hs. unfold user_update. by destruct (users s !! id). Qed.

Lemma preserves_order_update id f :
  (∀ o, order_ok (f o)) → preserves (order_update id f).
Proof.
  intros Hf s Hs. unfold order_update.
  destruct (orders s !! id) as [o |]; [| done].
  intros id' o'. simpl. rewrite lookup_insert.
  case_decide; [intros [= <-]; apply Hf | apply Hs].
Qed.

Lemma preserves_order_create o : order_ok o → preserves (order_create o).
Proof.
  intros Ho s Hs id' o'. unfold order_create. simpl. rewrite lookup_insert.
  case_decide; [by intros [= <-] | apply Hs].
Qed.

Create HintDb preserve.

#[local] Hint Resolve preserves_ret preserves_read preserves_send
  preserves_throw preserves_validate preserves_notification_create
  preserves_product_update preserves_user_update : preserve.

(** Break an action down along its binds, loops and branches. *)
Ltac preserve :=
  repeat first
    [ progress auto with preserve
    | apply preserves_bind; [| intros ?]
    | apply preserves_try_catch; [| intros ?]
    | apply preserves_for_of; intros ? ?
    | match goal with
      | |- preserves (match ?x with _ => _ end) => destruct x
      | |- preserves (if ?b then _ else _) => destruct b
      end ].

(** The data the three order writes put in place. *)

Lemma new_order_ok userId total address city zip l :
  order_ok {| ord_userId := userId; ord_total := total;
              ord_status := default_order_status;
              ord_receiptNumber := None; ord_completedAt := None;
              ord_shippingAddress := address; ord_shippingCity := city;
              ord_shippingZip := zip; ord_items := l |}.
Proof. intros Hst. discriminate Hst. Qed.

Lemma with_status_ok st o : st ≠ "completed" → order_ok (with_status st o).
Proof. intros Hne Hst. simpl in Hst. congruence. Qed.

Lemma completed_ok amb o : order_ok (completed amb o).
Proof. intros _. exists (receipt_number amb). split; [done | discriminate]. Qed.

Lemma accepted_not_completed st : st ∈ accepted_statuses → st ≠ "completed".
Proof.
  unfold accepted_statuses. intros Hin ->.
  repeat (apply elem_of_cons in Hin as [Hin | Hin]; [discriminate Hin |]).
  by inversion Hin.
Qed.

(** The gates only read. *)
Lemma preserves_gate g req : preserves (gate E g req).
Proof.
  destruct g; simpl;
    unfold authenticate, authenticateUser, authenticateOwner,
      authenticateAdmin, decode, invalid_token;
    preserve.
Qed.

Lemma preserves_post_orders u b : preserves (post_orders E u b).
Proof.
  unfold post_orders. preserve.
  - apply preserves_order_create, new_order_ok.
  - unfold add_shop_owner. preserve.
Qed.

Lemma preserves_put_orders_cancel u id : preserves (put_orders_cancel u id).
Proof.
  unfold put_orders_cancel. preserve.
  apply preserves_order_update. intros o'. by apply with_status_ok.
Qed.

Lemma preserves_some_owned l w : preserves (some_owned l w).
Proof. induction l as [| item l IH]; simpl; preserve. Qed.

Lemma preserves_put_orders_status u id st :
  st ≠ "completed" → preserves (put_orders_status E u id st).
Proof.
  intros Hst. unfold put_orders_status. preserve.
  - apply preserves_some_owned.
  - apply preserves_order_update. intros o'. by apply with_status_ok.
  - unfold notifyOrderStatusChanged. preserve.
Qed.

Lemma preserves_put_orders_confirm amb u id :
  preserves (put_orders_confirm E amb u id).
Proof.
  unfold put_orders_confirm. preserve.
  apply preserves_order_update, completed_ok.
Qed.

Lemma preserves_put_users_wishlist u p : preserves (put_users_wishlist E u p).
Proof. unfold put_users_wishlist. preserve. Qed.

Lemma preserves_moderate id st title message done :
  preserves (moderate E id st title message done).
Proof. unfold moderate. preserve. Qed.

(** The status route runs its handler only on an accepted status. *)
Lemma preserves_handler amb ep u : preserves (handler_of E amb ep u).
Proof.
  destruct ep; simpl.
  - apply preserves_bind; [apply preserves_validate | intros _].
    apply preserves_post_orders.
  - apply preserves_put_orders_cancel.
  - unfold updateStatusValidation. case_bool_decide as Hst; simpl.
    + apply preserves_bind; [apply preserves_ret | intros _].
      by apply preserves_put_orders_status, accepted_not_completed.
    + by intros s Hs.
  - apply preserves_put_orders_confirm.
  - apply preserves_bind; [apply preserves_validate | intros _].
    apply preserves_put_users_wishlist.
  - apply preserves_moderate.
  - apply preserves_moderate.
Qed.

(** Every endpoint keeps the invariant, whatever it answers. *)
Lemma serve_preserves amb ep req s :
  completed_have_receipt s →
  completed_have_receipt (serve E amb ep req s).2.
Proof.
  intros Hs. unfold serve, route, respond.
  assert (preserves (gate E (gate_of ep) req ≫= handler_of E amb ep)) as Hp.
  { apply preserves_bind; [apply preserves_gate | intros u; apply preserves_handler]. }
  specialize (Hp s Hs).
  by destruct ((gate E (gate_of ep) req ≫= handler_of E amb ep) s)
    as [[[] | r | e] s'].
Qed.

(** C9: "completed" is not among the statuses the owner-side update
    accepts, and in every state the endpoints lead to from a store
    without orders, an order in status "completed" has a receipt
    identifier. *)
Theorem completed_orders_have_receipt (s0 s : Store) :
  orders s0 = ∅ →
  reachable E s0 s →
  ("completed" ∉ accepted_statuses)
  ∧ (∀ id o, orders s !! id = Some o → ord_status o = "completed" →
             ∃ receipt, ord_receiptNumber o = Some receipt ∧ receipt ≠ "").
Proof.
  intros Hempty Hreach. split.
  - intros Hin. by apply accepted_not_completed in Hin.
  - change (completed_have_receipt s).
    induction Hreach as [| s amb ep req _ IH].
    + intros id o. by rewrite Hempty, lookup_empty.
    + by apply serve_preserves.
Qed.

End Invariant.

(** C9 at work: Ann orders two anvils, Olga marks the order delivered,
    Ann confirms it. *)
Lemma completed_orders_have_receipt_witness :
  let s1 := (serve Demo.env Demo.amb
               (PostOrders (Demo.order_body [Demo.line "A" 2]))
               (Demo.bearer "tok-ann") Demo.store).2 in
  let s2 := (serve Demo.env Demo.amb (PutOrdersStatus "order" "delivered")
               (Demo.bearer "tok-olga") s1).2 in
  let s3 := (serve Demo.env Demo.amb (PutOrdersConfirm "order")
               (Demo.bearer "tok-ann") s2).2 in
  ord_status <$> orders s3 !! "order" = Some "completed"
  ∧ ("completed" ∉ accepted_statuses)
  ∧ (∀ id o, orders s3 !! id = Some o → ord_status o = "completed" →
             ∃ receipt, ord_receiptNumber o = Some receipt ∧ receipt ≠ "").
Proof.
  split; [vm_compute; reflexivity |].
  apply (completed_orders_have_receipt Demo.env Demo.store).
  - reflexivity.
  - do 3 apply reach_step. apply reach_start.
Defined.

(** * Further properties of the modelled code *)

(** ** Order cancellation *)

Lemma put_orders_cancel_run (u : Identity) (id : string) (s : Store) :
  respond (put_orders_cancel u id) s
  = match orders s !! id with
    | None => ({| status := 404; json := JError "Order not found" |}, s)
    | Some o =>
        if negb (String.eqb (ord_userId o) (user_id u)) then
          ({| status := 403; json := JError "Access denied" |}, s)
        else if negb (String.eqb (ord_status o) "pending") then
          ({| status := 400;
              json := JError "Only pending orders can be cancelled" |}, s)
        else
          ({| status := 200; json := order_json id (with_status "cancelled" o) |},
           set_orders (insert id (with_status "cancelled" o)) s)
    end.
Proof.
  unfold put_orders_cancel. rewrite respond_bind. unfold read.
  destruct (orders s !! id) as [o |] eqn:Ho; [| done].
  destruct (negb (String.eqb (ord_userId o) (user_id u))); [done |].
  destruct (negb (String.eqb (ord_status o) "pending")); [done |].
  rewrite respond_bind. unfold order_update. by rewrite Ho.
Qed.

(** X1: cancelling one's own pending order answers 200 and sets that
    order's status to "cancelled"; it gives no stock back and writes no
    notification: products, notifications and accounts are as before.
    The order is then closed to its user: a second cancellation and a
    confirmation are both answered 400 and change nothing. *)
Theorem cancel_pending_order (E : Env) (amb : Ambient) (u : Identity)
    (id : string) (o : Order) (s : Store) :
  cancellable s u id o →
  (respond (put_orders_cancel u id) s).1
  = {| status := 200; json := order_json id (with_status "cancelled" o) |}
  ∧ orders (respond (put_orders_cancel u id) s).2
    = <[id := with_status "cancelled" o]> (orders s)
  ∧ products (respond (put_orders_cancel u id) s).2 = products s
  ∧ notifications (respond (put_orders_cancel u id) s).2 = notifications s
  ∧ users (respond (put_orders_cancel u id) s).2 = users s
  ∧ respond (put_orders_cancel u id) (respond (put_orders_cancel u id) s).2
    = ({| status := 400; json := JError "Only pending orders can be cancelled" |},
       (respond (put_orders_cancel u id) s).2)
  ∧ respond (put_orders_confirm E amb u id) (respond (put_orders_cancel u id) s).2
    = ({| status := 400; json := JError "Can only confirm delivered orders" |},
       (respond (put_orders_cancel u id) s).2).
Proof.
  intros (Ho & Hu & Hst).
  assert (respond (put_orders_cancel u id) s
          = ({| status := 200; json := order_json id (with_status "cancelled" o) |},
             set_orders (insert id (with_status "cancelled" o)) s)) as ->.
  { rewrite put_orders_cancel_run, Ho, Hu, Hst. by rewrite String.eqb_refl. }
  do 5 (split; [done |]). simpl. split.
  - rewrite put_orders_cancel_run. simpl. rewrite lookup_insert_eq. simpl.
    by rewrite Hu, String.eqb_refl.
  - apply (confirm_not_delivered E amb u id (with_status "cancelled" o)).
    + simpl. apply lookup_insert_eq.
    + done.
    + discriminate.
Qed.

(** X2: cancellation answers 200 only for an order of the caller that
    is pending; every other answer (404, 403 or 400) leaves the store as
    it was. *)
Theorem cancel_only_own_pending (u : Identity) (id : string) (s : Store) :
  (status (respond (put_orders_cancel u id) s).1 = 200
   ↔ ∃ o, cancellable s u id o)
  ∧ (status (respond (put_orders_cancel u id) s).1 ≠ 200 →
     (respond (put_orders_cancel u id) s).2 = s
     ∧ status (respond (put_orders_cancel u id) s).1 ∈ [404; 403; 400]).
Proof.
  rewrite put_orders_cancel_run. unfold cancellable.
  destruct (orders s !! id) as [o |] eqn:Ho.
  - destruct (String.eqb_spec (ord_userId o) (user_id u)) as [Hu | Hu]; simpl.
    + destruct (String.eqb_spec (ord_status o) "pending") as [Hst | Hst]; simpl.
      * split; [| done]. split; [intros _; by exists o | done].
      * split.
        -- split; [done |]. intros (o' & [= <-] & _ & ?). done.
        -- intros _. split; [done | set_solver].
    + split.
      * split; [done |]. intros (o' & [= <-] & ? & _). done.
      * intros _. split; [done | set_solver].
  - split.
    + split; [done |]. intros (o' & ? & _). done.
    + intros _. split; [done | set_solver].
Qed.

(** X1 at work: Ann cancels her pending order of two anvils; the five
    anvils in stock stay five, and the order cannot be cancelled again. *)
Lemma cancel_pending_order_witness :
  let r := respond (put_orders_cancel Demo.ann "ord1") Fixtures.pending in
  r.1 = {| status := 200; json := JOrder "ord1" 20 "cancelled" None |}
  ∧ orders r.2 = <["ord1" := Demo.anvils "cancelled" None]> (orders Fixtures.pending)
  ∧ products r.2 = products Fixtures.pending
  ∧ notifications r.2 = []
  ∧ users r.2 = users Fixtures.pending
  ∧ respond (put_orders_cancel Demo.ann "ord1") r.2
    = ({| status := 400; json := JError "Only pending orders can be cancelled" |}, r.2)
  ∧ respond (put_orders_confirm Demo.env Demo.amb Demo.ann "ord1") r.2
    = ({| status := 400; json := JError "Can only confirm delivered orders" |}, r.2).
Proof.
  apply (cancel_pending_order Demo.env Demo.amb Demo.ann "ord1"
           (Demo.anvils "pending" None) Fixtures.pending).
  repeat split; reflexivity.
Defined.

(** X2 at work: Bob tries to cancel Ann's order. *)
Lemma cancel_only_own_pending_witness :
  let r := respond (put_orders_cancel Fixtures.bob "ord1") Fixtures.pending in
  r.2 = Fixtures.pending ∧ status r.1 ∈ [404; 403; 400].
Proof.
  apply (proj2 (cancel_only_own_pending Fixtures.bob "ord1" Fixtures.pending)).
  vm_compute. discriminate.
Defined.

(** ** Order creation writes all or nothing *)

Section OrderCreationMore.

Context (E : Env).

(** Either every line item can be served, or there is a first one that
    cannot: its product is missing or short of stock. *)
Lemma first_unserved (s : Store) (l : list LineItem) :
  Forall (in_stock s) l
  ∨ ∃ pre item post,
      l = pre ++ item :: post ∧ Forall (in_stock s) pre
      ∧ (products s !! li_productId item = None ∨ short_of_stock s item).
Proof.
  induction l as [| item l IH]; [by left |].
  destruct (products s !! li_productId item) as [p |] eqn:Hp.
  - destruct (Z.ltb_spec (p_stock p) (li_quantity item)) as [Hlt | Hge].
    + right. exists [], item, l. split; [done |]. split; [done |].
      right. by exists p.
    + destruct IH as [Hall | (pre & x & post & -> & Hpre & Hx)].
      * left. constructor; [by exists p | done].
      * right. exists (item :: pre), x, post. split; [done |].
        split; [| done]. constructor; [by exists p | done].
  - right. exists [], item, l. split; [done |]. split; [done | by left].
Qed.

Lemma served_or_not (s : Store) (l : list LineItem) :
  Forall (in_stock s) l ∨ ¬ Forall (in_stock s) l.
Proof.
  destruct (first_unserved s l)
    as [Hall | (pre & item & post & -> & Hpre & Hbad)]; [by left |].
  right. intros Hall. apply Forall_app in Hall as [_ Hall].
  inversion Hall as [| ? ? (p & Hp & Hq) _]; subst.
  destruct Hbad as [Hnone | (p' & Hp' & Hlt)]; [congruence |].
  assert (p' = p) as -> by congruence. lia.
Qed.

Lemma post_orders_refused (u : Identity) (b : OrderBody) (s : Store) :
  ¬ Forall (in_stock s) (items b) →
  status (respond (post_orders E u b) s).1 ∈ [400; 404]
  ∧ (respond (post_orders E u b) s).2 = s
  ∧ for_of (items b) price_item (0%float, []) s
    = (Sent (respond (post_orders E u b) s).1, s).
Proof.
  intros Hnot.
  destruct (first_unserved s (items b))
    as [Hall | (pre & item & post & Hitems & Hpre & Hbad)]; [done |].
  unfold respond, post_orders, mbind, action_bind, bind. rewrite Hitems.
  destruct Hbad as [Hnone | (p & Hp & Hlt)].
  - rewrite (price_items_missing s pre item post _ Hpre Hnone).
    split; [set_solver | done].
  - rewrite (price_items_short s pre item post _ Hpre p Hp Hlt).
    split; [set_solver | done].
Qed.

Lemma post_orders_wire_text (u : Identity) (wb : WireBody) (s : Store) :
  forallb (λ wi, is_number (wi_quantity wi)) (w_items wb) = false →
  respond (post_orders_wire E u wb) s
  = match for_of (items (typed_body wb)) price_item (0%float, []) s with
    | (Next _, s') => (errorHandler invalid_argument, s')
    | (Sent r, s') => (r, s')
    | (Thrown e, s') => (errorHandler e, s')
    end.
Proof.
  intros Hnum. unfold post_orders_wire. rewrite respond_bind, Hnum. simpl.
  by destruct (for_of _ price_item _ s) as [[priced | r | e] s'].
Qed.

Lemma served_typed (s : Store) (ws : list WireItem) :
  Forall (in_stock s) (map typed_item ws) ↔ Forall (can_be_served s) ws.
Proof.
  rewrite Forall_fmap. apply Forall_iff. intros wi.
  unfold in_stock, can_be_served, compose. simpl.
  by destruct (wi_quantity wi).
Qed.

(** X3: for a body of line items with a product id and a quantity that
    is an integer, sent as a number or as a string of digits, order
    creation answers 201, 400, 404 or 500.  It answers 201 exactly when
    every line item names an existing product with enough stock and
    every quantity was sent as a number; when the stock would do but a
    quantity was sent as a string, the ORM refuses the order and the
    answer is 500; otherwise the answer is 400 or 404.  With any answer
    but 201 nothing has been written: no order, no stock change, no
    notification. *)
Theorem order_creation_all_or_nothing (u : Identity) (wb : WireBody) (s : Store) :
  (status (respond (post_orders_wire E u wb) s).1 = 201
   ∧ Forall (can_be_served s) (w_items wb)
   ∧ Forall (λ wi, ∃ q, wi_quantity wi = AsNumber q) (w_items wb))
  ∨ (status (respond (post_orders_wire E u wb) s).1 = 500
     ∧ Forall (can_be_served s) (w_items wb)
     ∧ ¬ Forall (λ wi, ∃ q, wi_quantity wi = AsNumber q) (w_items wb)
     ∧ (respond (post_orders_wire E u wb) s).2 = s)
  ∨ (status (respond (post_orders_wire E u wb) s).1 ∈ [400; 404]
     ∧ ¬ Forall (can_be_served s) (w_items wb)
     ∧ (respond (post_orders_wire E u wb) s).2 = s).
Proof.
  rewrite <- !served_typed.
  destruct (forallb (λ wi, is_number (wi_quantity wi)) (w_items wb)) eqn:Hnum.
  - rewrite (post_orders_wire_numbers E u wb Hnum).
    apply all_numbers in Hnum.
    destruct (served_or_not s (items (typed_body wb))) as [Hall | Hnot].
    + left. by rewrite (post_orders_in_stock E u (typed_body wb) s Hall).
    + right. right.
      destruct (post_orders_refused u (typed_body wb) s Hnot) as (Hst & Hs & _).
      done.
  - assert (¬ Forall (λ wi, ∃ q, wi_quantity wi = AsNumber q) (w_items wb))
      as Htext.
    { intros H. apply all_numbers in H. congruence. }
    right. rewrite (post_orders_wire_text u wb s Hnum).
    destruct (served_or_not s (items (typed_body wb))) as [Hall | Hnot].
    + left. by rewrite (price_items_in_stock s _ _ Hall).
    + right.
      destruct (post_orders_refused u (typed_body wb) s Hnot) as (Hst & Hs & ->).
      done.
Qed.

End OrderCreationMore.

(** X3 at work: two anvils, five in stock, the quantity sent as a
    string: the answer is 500 and nothing is written. *)
Lemma order_creation_all_or_nothing_witness :
  let r := respond (post_orders_wire Demo.env Demo.ann Fixtures7.as_text)
             Demo.store in
  status r.1 = 500 ∧ r.2 = Demo.store.
Proof.
  destruct (order_creation_all_or_nothing Demo.env Demo.ann Fixtures7.as_text
              Demo.store)
    as [(_ & _ & Hnum) | [(Hst & _ & _ & Hs) | (_ & Hnot & _)]].
  - inversion Hnum as [| ? ? [q Hq] _]. discriminate Hq.
  - by split.
  - destruct Hnot. repeat constructor.
    exists (Demo.product "Anvil" 10 5). split; [reflexivity | simpl; lia].
Defined.

(** ** Order confirmation: who is notified, and the refusals *)

Section ConfirmationMore.

Context (E : Env).

Lemma truthy_opt_Some (o : option string) :
  Js.truthy_opt o = true ↔ ∃ w, o = Some w ∧ w ≠ "".
Proof.
  destruct o as [w |]; simpl.
  - unfold Js.truthy. destruct (String.eqb_spec w ""); simpl.
    + split; [done |]. intros (w' & [= <-] & ?). done.
    + split; [| done]. intros _. by exists w.
  - split; [done |]. intros (w & ? & _). done.
Qed.

Lemma confirm_owners_NoDup s l acc : NoDup acc → NoDup (confirm_owners s l acc).
Proof.
  revert acc. induction l as [| item l IH]; intros acc Hacc; [done |].
  simpl. apply IH.
  destruct (Js.truthy_opt (item_owner s item)); [by apply Set_add_NoDup | done].
Qed.

Lemma confirm_owners_elem s l acc w :
  w ∈ confirm_owners s l acc
  ↔ w ∈ acc ∨ (w ≠ "" ∧ ∃ item, item ∈ l ∧ item_owner s item = Some w).
Proof.
  revert acc. induction l as [| item l IH]; intros acc; simpl.
  - split; [by left |]. intros [| (_ & ? & Hin & _)]; [done | by inversion Hin].
  - rewrite IH. destruct (Js.truthy_opt (item_owner s item)) eqn:Htr.
    + apply truthy_opt_Some in Htr as (w' & Hw' & Hne). rewrite Hw'. simpl.
      rewrite Set_add_elem. split.
      * intros [[-> | Hin] | (Hw & x & Hx & Hox)].
        -- right. split; [done |]. exists item. split; [left | done].
        -- by left.
        -- right. split; [done |]. exists x. split; [by right | done].
      * intros [Hin | (Hw & x & Hx & Hox)]; [left; by right |].
        apply elem_of_cons in Hx as [-> | Hx].
        -- left. left. congruence.
        -- right. split; [done |]. by exists x.
    + split.
      * intros [Hin | (Hw & x & Hx & Hox)]; [by left |].
        right. split; [done |]. exists x. split; [by right | done].
      * intros [Hin | (Hw & x & Hx & Hox)]; [by left |].
        apply elem_of_cons in Hx as [-> | Hx].
        -- assert (Js.truthy_opt (item_owner s item) = true) as Hyes
             by (apply truthy_opt_Some; by exists w).
           congruence.
        -- right. split; [done |]. by exists x.
Qed.

(** X4: a successful confirmation writes exactly one "Order Completed"
    notification for each distinct owner of a shop behind the order's
    items, however many items that owner supplied; each is addressed to
    that owner and carries the receipt just issued, the one of the
    answer and of the stored order. *)
Theorem confirm_notifies_each_owner_once (amb : Ambient) (u : Identity)
    (id : string) (o : Order) (s : Store) :
  confirmable s u id o →
  (∀ n, notification_fault E n = None) →
  ∃ (shopOwnerIds : list string) (receipt : string),
    (respond (put_orders_confirm E amb u id) s).1
    = {| status := 200;
         json := JConfirmed "Order confirmed successfully" receipt id |}
    ∧ ord_receiptNumber
        <$> orders (respond (put_orders_confirm E amb u id) s).2 !! id
      = Some (Some receipt)
    ∧ notifications (respond (put_orders_confirm E amb u id) s).2
      = notifications s
        ++ map (λ w,
                  {| n_userId := None; n_ownerId := Some w; n_adminId := None;
                     n_type := "order"; n_title := "Order Completed";
                     n_message :=
                       "Order #" +:+ String.substring (String.length id - 6) 6 id
                         +:+ " has been confirmed by the customer. Receipt: "
                         +:+ receipt;
                     n_link := "/orders" |}) shopOwnerIds
    ∧ NoDup shopOwnerIds
    ∧ (∀ w, w ∈ shopOwnerIds
            ↔ w ≠ "" ∧ ∃ item, item ∈ ord_items o ∧ item_owner s item = Some w).
Proof.
  intros Hc Hok.
  exists (confirm_owners s (ord_items o) []), (receipt_number amb).
  rewrite (confirm_delivered E amb u id o s Hc Hok).
  split; [done |]. split; [simpl; by rewrite lookup_insert_eq |].
  split; [done |].
  split; [apply confirm_owners_NoDup, NoDup_nil_2 |].
  intros w. rewrite confirm_owners_elem. split.
  - intros [Hin | ?]; [by inversion Hin | done].
  - by right.
Qed.

(** X5: unless the order exists, is the caller's, is delivered and has
    no receipt yet, confirmation is refused with 404, 403 or 400 and
    writes nothing. *)
Theorem confirm_refused_writes_nothing (amb : Ambient) (u : Identity)
    (id : string) (s : Store) :
  (∀ o, ¬ confirmable s u id o) →
  (respond (put_orders_confirm E amb u id) s).2 = s
  ∧ status (respond (put_orders_confirm E amb u id) s).1 ∈ [404; 403; 400].
Proof.
  intros Hnot. unfold put_orders_confirm. rewrite respond_bind. unfold read.
  destruct (orders s !! id) as [o |] eqn:Ho; [| split; [done | set_solver]].
  destruct (String.eqb_spec (ord_userId o) (user_id u)) as [Hu | Hu]; simpl;
    [| split; [done | set_solver]].
  destruct (String.eqb_spec (ord_status o) "delivered") as [Hst | Hst]; simpl;
    [| split; [done | set_solver]].
  destruct (Js.truthy_opt (ord_receiptNumber o)) eqn:Hrc;
    [split; [done | set_solver] |].
  by destruct (Hnot o).
Qed.

End ConfirmationMore.

(** X4 at work: Ann confirms her delivered anvils; Olga is told once,
    with the order and the receipt of the answer. *)
Lemma confirm_notifies_each_owner_once_witness :
  let r := respond (put_orders_confirm Demo.env Demo.amb Demo.ann "ord1")
             Demo.delivered in
  r.1 = {| status := 200;
           json := JConfirmed "Order confirmed successfully"
                     "RCP-20250309-K3J9X2MQ" "ord1" |}
  ∧ notifications r.2
    = [ {| n_userId := None; n_ownerId := Some "olga"; n_adminId := None;
           n_type := "order"; n_title := "Order Completed";
           n_message := "Order #ord1 has been confirmed by the customer. Receipt: RCP-20250309-K3J9X2MQ";
           n_link := "/orders" |} ].
Proof.
  intros r. subst r.
  destruct (confirm_notifies_each_owner_once Demo.env Demo.amb Demo.ann "ord1"
              (Demo.anvils "delivered" None) Demo.delivered)
    as (shopOwnerIds & receipt & Hanswer & _ & Hrows & Hnodup & Howners).
  - repeat split; reflexivity.
  - intros n. reflexivity.
  - assert (shopOwnerIds = ["olga"]) as ->.
    { apply only_one; [exact Hnodup |]. intros w. rewrite Howners. split.
      - intros (_ & item & Hitem & Hw).
        apply elem_of_cons in Hitem as [-> | Hitem]; [| by inversion Hitem].
        vm_compute in Hw. by injection Hw as <-.
      - intros ->. split; [discriminate |].
        exists {| oi_productId := "A"; oi_quantity := 2; oi_price := 10 |}.
        split; [left |]. vm_compute. reflexivity. }
    assert (receipt = "RCP-20250309-K3J9X2MQ") as ->.
    { pose proof Hanswer as H. vm_compute in H. by injection H as <-. }
    split; [exact Hanswer | exact Hrows].
Defined.

(** X5 at work: Bob tries to confirm Ann's delivered order. *)
Lemma confirm_refused_writes_nothing_witness :
  let r := respond (put_orders_confirm Demo.env Demo.amb Fixtures.bob "ord1")
             Demo.delivered in
  r.2 = Demo.delivered ∧ status r.1 ∈ [404; 403; 400].
Proof.
  apply (confirm_refused_writes_nothing Demo.env Demo.amb Fixtures.bob "ord1"
           Demo.delivered).
  intros o (Ho & Hu & _). vm_compute in Ho. injection Ho as <-.
  discriminate Hu.
Defined.

(** ** Product moderation *)

Section Moderation.

Context (E : Env).

Lemma moderate_missing id st title message done s :
  products s !! id = None →
  respond (moderate E id st title message done) s
  = ({| status := 404; json := JError "Record not found" |}, s).
Proof.
  intros Hp. unfold moderate. rewrite respond_bind.
  unfold product_update. by rewrite Hp.
Qed.

Lemma moderate_found id st title message done s p sh :
  products s !! id = Some p →
  shops s !! p_shopId p = Some sh →
  notification_fault E
    (owner_notification (shop_ownerId sh) "approval" title
       (message (with_product_status st p)) "/products") = None →
  respond (moderate E id st title message done) s
  = ({| status := 200; json := JProduct done id st |},
     set_notifications
       (λ ns, ns ++ [owner_notification (shop_ownerId sh) "approval" title
                       (message (with_product_status st p)) "/products"])
       (set_products (insert id (with_product_status st p)) s)).
Proof.
  intros Hp Hsh Hok. unfold moderate. rewrite respond_bind.
  unfold product_update. rewrite Hp.
  rewrite respond_bind. unfold read. simpl. rewrite Hsh.
  rewrite respond_bind. unfold notification_create. by rewrite Hok.
Qed.

(** X6: approving or rejecting a product that does not exist is
    answered 404 "Record not found" and writes nothing. *)
Theorem moderation_of_missing_product (id : string) (reason : option string)
    (s : Store) :
  products s !! id = None →
  respond (put_admin_products_approve E id) s
  = ({| status := 404; json := JError "Record not found" |}, s)
  ∧ respond (put_admin_products_reject E id reason) s
    = ({| status := 404; json := JError "Record not found" |}, s).
Proof.
  intros Hp. split; by apply moderate_missing.
Qed.

(** X7: approval takes a product in any moderation state.  When the
    database takes the notification row the answer is 200; the product's
    status is then "approved", its name, price, stock and shop are
    untouched, and the one notification written is addressed to the
    owner of the product's shop. *)
Theorem approval_sets_status_and_notifies (id : string) (s : Store)
    (p : Product) (sh : Shop) :
  products s !! id = Some p →
  shops s !! p_shopId p = Some sh →
  (∀ n, notification_fault E n = None) →
  (respond (put_admin_products_approve E id) s).1
  = {| status := 200; json := JProduct "Product approved successfully" id "approved" |}
  ∧ products (respond (put_admin_products_approve E id) s).2
    = <[id := {| p_name := p_name p; p_price := p_price p;
                 p_stock := p_stock p; p_shopId := p_shopId p;
                 p_status := "approved" |}]> (products s)
  ∧ notifications (respond (put_admin_products_approve E id) s).2
    = notifications s
      ++ [ {| n_userId := None; n_ownerId := Some (shop_ownerId sh);
              n_adminId := None; n_type := "approval";
              n_title := "Product Approved";
              n_message := approval_message p; n_link := "/products" |} ]
  ∧ orders (respond (put_admin_products_approve E id) s).2 = orders s.
Proof.
  intros Hp Hsh Hok. unfold put_admin_products_approve.
  by rewrite (moderate_found id _ _ _ _ s p sh Hp Hsh (Hok _)).
Qed.

(** X8: rejection likewise takes a product in any state, also an
    approved one.  The notification gives the reason when one is sent
    with the request; a missing or empty reason gives the standard
    text. *)
Theorem rejection_sets_status_and_notifies (id : string)
    (reason : option string) (s : Store) (p : Product) (sh : Shop) :
  products s !! id = Some p →
  shops s !! p_shopId p = Some sh →
  (∀ n, notification_fault E n = None) →
  (respond (put_admin_products_reject E id reason) s).1
  = {| status := 200; json := JProduct "Product rejected successfully" id "rejected" |}
  ∧ p_status <$> products (respond (put_admin_products_reject E id reason) s).2 !! id
    = Some "rejected"
  ∧ notifications (respond (put_admin_products_reject E id reason) s).2
    = notifications s
      ++ [ owner_notification (shop_ownerId sh) "approval" "Product Rejected"
             (rejection_message reason p) "/products" ]
  ∧ (reason = None ∨ reason = Some "" →
     rejection_message reason p
     = "Your product " +:+ quoted (p_name p)
         +:+ " has been rejected. Please review and update your product listing.").
Proof.
  intros Hp Hsh Hok. unfold put_admin_products_reject.
  rewrite (moderate_found id _ _ _ _ s p sh Hp Hsh (Hok _)).
  split; [done |]. split; [simpl; by rewrite lookup_insert_eq |].
  split; [done |]. by intros [-> | ->].
Qed.

End Moderation.

(** X6 at work: there is no product Z. *)
Lemma moderation_of_missing_product_witness :
  respond (put_admin_products_approve Demo.env "Z") Demo.store
  = ({| status := 404; json := JError "Record not found" |}, Demo.store)
  ∧ respond (put_admin_products_reject Demo.env "Z" (Some "spam")) Demo.store
    = ({| status := 404; json := JError "Record not found" |}, Demo.store).
Proof.
  apply (moderation_of_missing_product Demo.env "Z" (Some "spam") Demo.store).
  reflexivity.
Defined.

(** X7 at work: the pending crate is approved. *)
Lemma approval_sets_status_and_notifies_witness :
  let r := respond (put_admin_products_approve Demo.env "C") Demo.store in
  r.1 = {| status := 200;
           json := JProduct "Product approved successfully" "C" "approved" |}
  ∧ products r.2
    = <["C" := {| p_name := "Crate"; p_price := 7; p_stock := 1;
                  p_shopId := "shop1"; p_status := "approved" |}]>
        (products Demo.store)
  ∧ notifications r.2
    = [ {| n_userId := None; n_ownerId := Some "olga"; n_adminId := None;
           n_type := "approval"; n_title := "Product Approved";
           n_message := approval_message
                          {| p_name := "Crate"; p_price := 7; p_stock := 1;
                             p_shopId := "shop1"; p_status := "pending" |};
           n_link := "/products" |} ]
  ∧ orders r.2 = orders Demo.store.
Proof.
  apply (approval_sets_status_and_notifies Demo.env "C" Demo.store
           {| p_name := "Crate"; p_price := 7; p_stock := 1;
              p_shopId := "shop1"; p_status := "pending" |}
           {| shop_name := "Yard"; shop_ownerId := "olga" |}).
  - reflexivity.
  - reflexivity.
  - intros n. reflexivity.
Defined.

(** X8 at work: the approved anvil is rejected, without a reason. *)
Lemma rejection_sets_status_and_notifies_witness :
  let r := respond (put_admin_products_reject Demo.env "A" None) Demo.store in
  r.1 = {| status := 200;
           json := JProduct "Product rejected successfully" "A" "rejected" |}
  ∧ p_status <$> products r.2 !! "A" = Some "rejected"
  ∧ notifications r.2
    = [ owner_notification "olga" "approval" "Product Rejected"
          (rejection_message None (Demo.product "Anvil" 10 5)) "/products" ]
  ∧ (@None string = None ∨ None = Some "" →
     rejection_message None (Demo.product "Anvil" 10 5)
     = "Your product " +:+ quoted "Anvil"
         +:+ " has been rejected. Please review and update your product listing.").
Proof.
  apply (rejection_sets_status_and_notifies Demo.env "A" None Demo.store
           (Demo.product "Anvil" 10 5)
           {| shop_name := "Yard"; shop_ownerId := "olga" |}).
  - reflexivity.
  - reflexivity.
  - intros n. reflexivity.
Defined.

(** ** The gates, one by one *)

Section Gates.

Context (E : Env).

Lemma decode_bears req t d s : bears E req t d → decode E req s = (Next d, s).
Proof.
  intros (Ht & Hne & Hd). unfold decode. rewrite Ht. simpl.
  apply truthy_ne in Hne. by rewrite Hne, Hd.
Qed.

Lemma route_unfold g handler req s :
  route E g handler req s
  = match gate E g req s with
    | (Next u, s') => respond (handler u) s'
    | (Sent r, s') => (r, s')
    | (Thrown e, s') => (errorHandler e, s')
    end.
Proof. unfold route. apply respond_bind. Qed.

(** X9: on a route for users, owners or admins, a verified token of
    another role is answered 403 with the gate's own message; the
    handler does not run and nothing is written. *)
Theorem role_mismatch_403 (g : Gate) (handler : Identity → action Empty_set)
    (req : Request) (s : Store) (t : string) (d : Decoded) (role : string) :
  bears E req t d →
  required_role g = Some role →
  d_role d ≠ role →
  route E g handler req s
  = ({| status := 403; json := JError (role_refusal g) |}, s).
Proof.
  intros Hb Hg Hrole. rewrite route_unfold.
  destruct g; simpl in *; try discriminate; injection Hg as <-;
    unfold authenticateUser, authenticateOwner, authenticateAdmin, try_catch,
      mbind, action_bind, bind;
    rewrite (decode_bears req t d s Hb);
    match goal with
    | |- context [String.eqb ?a ?b] => by destruct (String.eqb_spec a b)
    end.
Qed.

(** X10: a verified token of the right role whose account is no longer
    in the table is answered 401; the handler does not run. *)
Theorem stale_credential_401 (g : Gate) (handler : Identity → action Empty_set)
    (req : Request) (s : Store) (t : string) (d : Decoded) :
  bears E req t d →
  required_role g = Some (d_role d) →
  account_missing g s (d_id d) →
  route E g handler req s
  = ({| status := 401; json := JError (stale_refusal g) |}, s).
Proof.
  intros Hb Hg Hgone. rewrite route_unfold.
  destruct g; simpl in *; try discriminate; injection Hg as Hrole;
    unfold authenticateUser, authenticateOwner, authenticateAdmin, try_catch,
      mbind, action_bind, bind, read;
    rewrite (decode_bears req t d s Hb), <- Hrole; simpl;
    by rewrite Hgone.
Qed.

Lemma extractToken_cookie req c :
  cookies_token req = Some c → c ≠ "" → extractToken req = Some c.
Proof.
  intros Hc Hne. unfold extractToken. rewrite Hc. simpl.
  apply truthy_ne in Hne. by rewrite Hne.
Qed.

(** X11: the cookie comes first.  With a non-empty token cookie the
    Authorization header is not looked at: if the cookie's token does
    not verify, the request is answered 401 whatever the header
    carries. *)
Theorem cookie_shadows_header (g : Gate) (handler : Identity → action Empty_set)
    (req : Request) (s : Store) (c : string) :
  cookies_token req = Some c → c ≠ "" →
  verifyToken E c = None →
  extractToken req = Some c
  ∧ ∃ msg, route E g handler req s
           = ({| status := 401; json := JError msg |}, s).
Proof.
  intros Hc Hne Hbad.
  pose proof (extractToken_cookie req c Hc Hne) as Ht. split; [done |].
  destruct (gate_rejects E g req s) as [msg Hg]; [by rewrite Ht |].
  exists msg. by rewrite route_unfold, Hg.
Qed.

Lemma authenticate_bears req t d s :
  bears E req t d → gate E AnyRole req s = (Next (token_identity d), s).
Proof.
  intros Hb. simpl. unfold authenticate, try_catch, mbind, action_bind, bind.
  by rewrite (decode_bears req t d s Hb).
Qed.

(** X12: the general middleware trusts the token: a request bearing a
    verified token reaches the handler with the token's payload as
    identity, whether or not an account with that id exists. *)
Theorem authenticate_trusts_token (handler : Identity → action Empty_set)
    (req : Request) (s : Store) (t : string) (d : Decoded) :
  bears E req t d →
  route E AnyRole handler req s = respond (handler (token_identity d)) s.
Proof.
  intros Hb. by rewrite route_unfold, (authenticate_bears req t d s Hb).
Qed.

(** X13: behind the general middleware, [requireRole] lets a request
    through exactly when the token's role is one of the listed roles,
    and answers 403 otherwise. *)
Theorem requireRole_filters (roles : list string)
    (handler : Identity → action Empty_set)
    (req : Request) (s : Store) (t : string) (d : Decoded) :
  bears E req t d →
  (d_role d ∈ roles →
   route E AnyRole (λ u, requireRole roles (Some u);; handler u) req s
   = respond (handler (token_identity d)) s)
  ∧ (d_role d ∉ roles →
     route E AnyRole (λ u, requireRole roles (Some u);; handler u) req s
     = ({| status := 403; json := JError "Insufficient permissions" |}, s)).
Proof.
  intros Hb. rewrite route_unfold, (authenticate_bears req t d s Hb).
  split; intros Hrole; rewrite respond_bind; unfold requireRole; simpl.
  - by rewrite bool_decide_eq_true_2.
  - by rewrite bool_decide_eq_false_2.
Qed.

End Gates.

(** X9 at work: Olga's owner token on the wishlist route. *)
Lemma role_mismatch_403_witness :
  serve Demo.env Demo.amb (PutUsersWishlist "A") (Demo.bearer "tok-olga") Demo.store
  = ({| status := 403; json := JError "User access required" |}, Demo.store).
Proof.
  apply (role_mismatch_403 Demo.env UserOnly _ _ _ "tok-olga"
           {| d_id := "olga"; d_email := "olga@x"; d_role := "owner" |} "user").
  - repeat split; first [ reflexivity | discriminate ].
  - reflexivity.
  - discriminate.
Defined.

(** X10 at work: Ann's token after her account is gone. *)
Lemma stale_credential_401_witness :
  serve Demo.env Demo.amb (PutUsersWishlist "A") (Demo.bearer "tok-ann")
    Fixtures2.without_ann
  = ({| status := 401; json := JError "User not found" |}, Fixtures2.without_ann).
Proof.
  apply (stale_credential_401 Demo.env UserOnly _ _ _ "tok-ann"
           {| d_id := "ann"; d_email := "ann@x"; d_role := "user" |}).
  - repeat split; first [ reflexivity | discriminate ].
  - reflexivity.
  - reflexivity.
Defined.

(** X11 at work: a forged cookie beside Ann's good header. *)
Lemma cookie_shadows_header_witness :
  extractToken Fixtures2.forged_cookie = Some "forged"
  ∧ ∃ msg, serve Demo.env Demo.amb (PutUsersWishlist "A") Fixtures2.forged_cookie
             Demo.store
           = ({| status := 401; json := JError msg |}, Demo.store).
Proof.
  apply (cookie_shadows_header Demo.env UserOnly
           (handler_of Demo.env Demo.amb (PutUsersWishlist "A"))
           Fixtures2.forged_cookie Demo.store "forged");
    first [ reflexivity | discriminate ].
Defined.

(** X12 at work: Ann's token is taken although her account is gone. *)
Lemma authenticate_trusts_token_witness :
  route Demo.env AnyRole (λ u, send 200 (JError (user_id u)))
    (Demo.bearer "tok-ann") Fixtures2.without_ann
  = ({| status := 200; json := JError "ann" |}, Fixtures2.without_ann).
Proof.
  apply (authenticate_trusts_token Demo.env
           (λ u, send 200 (JError (user_id u))) (Demo.bearer "tok-ann")
           Fixtures2.without_ann "tok-ann"
           {| d_id := "ann"; d_email := "ann@x"; d_role := "user" |}).
  repeat split; first [ reflexivity | discriminate ].
Defined.

(** X13 at work: a route for owners and admins, and Ann's user token. *)
Lemma requireRole_filters_witness :
  route Demo.env AnyRole
    (λ u, requireRole ["owner"; "admin"] (Some u);; send 200 (JError (user_id u)))
    (Demo.bearer "tok-ann") Demo.store
  = ({| status := 403; json := JError "Insufficient permissions" |}, Demo.store).
Proof.
  apply (proj2 (requireRole_filters Demo.env ["owner"; "admin"]
                  (λ u, send 200 (JError (user_id u)))
                  (Demo.bearer "tok-ann") Demo.store "tok-ann"
                  {| d_id := "ann"; d_email := "ann@x"; d_role := "user" |}
                  ltac:(repeat split; first [ reflexivity | discriminate ]))).
  simpl. intros Hin.
  repeat (apply elem_of_cons in Hin as [Hin | Hin]; [discriminate Hin |]).
  by inversion Hin.
Defined.

(** ** Validation of the order body *)

Section OrderValidation.

Context (E : Env).

Lemma flat_map_nil {A B} (f : A → list B) (l : list A) :
  flat_map f l = [] ↔ Forall (λ x, f x = []) l.
Proof.
  induction l as [| x l IH]; simpl.
  - split; [constructor | done].
  - split.
    + intros Happ. apply app_eq_nil in Happ as [Hx Hl].
      constructor; [done | by apply IH].
    + intros Hall. inversion Hall as [| ? ? Hx Hl]; subst.
      rewrite Hx. by apply IH.
Qed.

Lemma truthy_guard (x msg : string) :
  (if Js.truthy x then [] else [msg]) = [] ↔ x ≠ "".
Proof.
  rewrite <- truthy_ne. destruct (Js.truthy x); split; congruence.
Qed.


End OrderValidation.

(** ** The wishlist toggle, one step *)

Section WishlistMore.

Context (E : Env).

Lemma toggle_NoDup (p : string) (l : list string) : NoDup l → NoDup (toggle p l).
Proof.
  intros Hl. unfold toggle. case_bool_decide as Hp.
  - by apply NoDup_filter.
  - apply NoDup_app. split; [done |]. split; [| apply NoDup_singleton].
    intros x Hx Hin. apply list_elem_of_singleton in Hin. by subst.
Qed.

Lemma toggle_self (p : string) (l : list string) : p ∈ toggle p l ↔ p ∉ l.
Proof.
  unfold toggle. case_bool_decide as Hp.
  - rewrite list_elem_of_filter. tauto.
  - rewrite elem_of_app, list_elem_of_singleton. tauto.
Qed.

Lemma toggle_other (p x : string) (l : list string) :
  x ≠ p → x ∈ toggle p l ↔ x ∈ l.
Proof.
  intros Hne. unfold toggle. case_bool_decide as Hp.
  - rewrite list_elem_of_filter. tauto.
  - rewrite elem_of_app, list_elem_of_singleton. tauto.
Qed.

(** X15: one toggle flips the membership of the given id and of no
    other: it is in the stored wishlist afterwards exactly when it was
    not before (every occurrence is removed), the other ids stay, and
    no duplicate is introduced.  The product table is not consulted:
    the id need not name a product. *)
Theorem wishlist_toggle_flips (u : Identity) (productId : string)
    (s : Store) (usr : User) :
  users s !! user_id u = Some usr →
  ∃ stored : list string,
    respond (put_users_wishlist E u productId) s
    = ({| status := 200; json := JWishlist stored |},
       set_users (insert (user_id u) (with_wishlist stored usr)) s)
    ∧ (productId ∈ stored ↔ productId ∉ current_wishlist E (u_wishlist usr))
    ∧ (∀ x, x ≠ productId →
            (x ∈ stored ↔ x ∈ current_wishlist E (u_wishlist usr)))
    ∧ (NoDup (current_wishlist E (u_wishlist usr)) → NoDup stored).
Proof.
  intros Hu. exists (toggle productId (current_wishlist E (u_wishlist usr))).
  split; [by apply put_users_wishlist_spec |].
  split; [apply toggle_self |].
  split; [intros x Hx; by apply toggle_other | apply toggle_NoDup].
Qed.

(** X16: a stored wishlist that cannot be read as an array (null, an
    empty string, or a string [JSON.parse] rejects or turns into
    something else) counts as empty: the toggle replaces it by the
    one-element array of the given id. *)
Theorem wishlist_unreadable_is_replaced (u : Identity) (productId : string)
    (s : Store) (usr : User) :
  users s !! user_id u = Some usr →
  u_wishlist usr = WNull
  ∨ (∃ str, u_wishlist usr = WString str
            ∧ (str = "" ∨ JSON_parse_array E str = None)) →
  respond (put_users_wishlist E u productId) s
  = ({| status := 200; json := JWishlist [productId] |},
     set_users (insert (user_id u)
                  {| u_email := u_email usr; u_wishlist := WArray [productId] |}) s).
Proof.
  intros Hu Hw. rewrite (put_users_wishlist_spec E u productId s usr Hu).
  assert (current_wishlist E (u_wishlist usr) = []) as ->.
  { destruct Hw as [-> | (str & -> & [-> | Hparse])]; [done | done |].
    simpl. rewrite Hparse. by destruct (Js.truthy str). }
  done.
Qed.

End WishlistMore.

(** X15 at work: Ann's wishlist and product A. *)
Lemma wishlist_toggle_flips_witness :
  ∃ stored : list string,
    respond (put_users_wishlist Demo.env Demo.ann "A") Demo.store
    = ({| status := 200; json := JWishlist stored |},
       set_users (insert "ann" {| u_email := "ann@x"; u_wishlist := WArray stored |})
         Demo.store)
    ∧ ("A" ∈ stored ↔ "A" ∉ @nil string)
    ∧ (∀ x, x ≠ "A" → (x ∈ stored ↔ x ∈ @nil string))
    ∧ (NoDup (@nil string) → NoDup stored).
Proof.
  apply (wishlist_toggle_flips Demo.env Demo.ann "A" Demo.store
           {| u_email := "ann@x"; u_wishlist := WString "[]" |}).
  reflexivity.
Defined.

(** X16 at work: a garbled wishlist column. *)
Lemma wishlist_unreadable_is_replaced_witness :
  respond (put_users_wishlist Demo.env Demo.ann "A") Fixtures3.garbled
  = ({| status := 200; json := JWishlist ["A"] |},
     set_users (insert "ann" {| u_email := "ann@x"; u_wishlist := WArray ["A"] |})
       Fixtures3.garbled).
Proof.
  apply (wishlist_unreadable_is_replaced Demo.env Demo.ann "A" Fixtures3.garbled
           {| u_email := "ann@x"; u_wishlist := WString "oops" |}).
  - reflexivity.
  - right. exists "oops". split; [reflexivity | right; reflexivity].
Defined.

(** ** Image validation *)

Section ImageValidatorFacts.

Import ImageValidator.

Lemma prefix_cons (c c' : ascii) (p s : string) :
  String.prefix (String c p) (String c' s)
  = if Ascii.ascii_dec c c' then String.prefix p s else false.
Proof. reflexivity. Qed.

Lemma prefix_split (p s : string) :
  String.prefix p s = true → ∃ rest, s = p +:+ rest.
Proof.
  revert s. induction p as [| c p IH]; intros s Hp.
  - by exists s.
  - destruct s as [| c' s]; [done |]. rewrite prefix_cons in Hp.
    destruct (Ascii.ascii_dec c c') as [-> | Hne]; [| done].
    destruct (IH s Hp) as [rest ->]. by exists rest.
Qed.

Lemma prefix_app (p rest : string) : String.prefix p (p +:+ rest) = true.
Proof.
  induction p as [| c p IH]; [by destruct rest |].
  change (String c p +:+ rest) with (String c (p +:+ rest)).
  rewrite prefix_cons. destruct (Ascii.ascii_dec c c); [done | congruence].
Qed.

Lemma split_comma_nonempty (s : string) : split_comma s ≠ [].
Proof.
  induction s as [| c s IH]; simpl; [done |].
  destruct (Ascii.eqb c ","); [done |]. by destruct (split_comma s).
Qed.

Lemma measured_cons (c : ascii) (r : string) :
  measured (String c r)
  = if Ascii.eqb c "," then EmptyString else String c (measured r).
Proof.
  unfold measured. simpl. destruct (Ascii.eqb c ","); [done |].
  pose proof (split_comma_nonempty r). by destruct (split_comma r).
Qed.

(** The headers have no comma before their last character. *)
Lemma header_split (ty rest : string) :
  ty ∈ image_types →
  split_comma (data_uri_prefix ty +:+ rest)
  = ("data:image/" +:+ ty +:+ ";base64") :: split_comma rest.
Proof.
  intros Hty. unfold image_types in Hty.
  repeat (apply elem_of_cons in Hty as [-> | Hty]; [reflexivity |]).
  by inversion Hty.
Qed.

Lemma regex_test_spec (s : string) :
  base64Regex_test s = true
  ↔ ∃ ty rest, ty ∈ image_types ∧ s = data_uri_prefix ty +:+ rest.
Proof.
  unfold base64Regex_test. rewrite existsb_exists. split.
  - intros (ty & Hty & Hp). apply prefix_split in Hp as [rest ->].
    exists ty, rest. split; [by apply list_elem_of_In | done].
  - intros (ty & rest & Hty & ->). exists ty.
    split; [by apply list_elem_of_In | apply prefix_app].
Qed.

(** [split(",")[1]] is defined on every string that passes the test. *)
Lemma split_second (s : string) :
  base64Regex_test s = true → (2 ≤ length (split_comma s))%nat.
Proof.
  intros Ht. apply regex_test_spec in Ht as (ty & rest & Hty & ->).
  rewrite (header_split ty rest Hty). simpl.
  pose proof (split_comma_nonempty rest). destruct (split_comma rest); [done |].
  simpl. lia.
Qed.

Lemma header_truthy (ty rest : string) :
  Js.truthy (data_uri_prefix ty +:+ rest) = true.
Proof. reflexivity. Qed.

Lemma validate_header (ty rest : string) :
  ty ∈ image_types →
  validateBase64Image (data_uri_prefix ty +:+ rest)
  = if exceeds_max (Z.of_nat (String.length (measured rest)))
    then reject ("Image size ("
                   +:+ sizeInMB_toFixed2 (Z.of_nat (String.length (measured rest)))
                   +:+ "MB) exceeds maximum allowed size of "
                   +:+ pretty MAX_SIZE_MB +:+ "MB")
    else accept.
Proof.
  intros Hty. unfold validateBase64Image.
  rewrite header_truthy.
  assert (base64Regex_test (data_uri_prefix ty +:+ rest) = true) as ->.
  { apply regex_test_spec. by exists ty, rest. }
  cbn [negb]. rewrite (header_split ty rest Hty).
  unfold measured. pose proof (split_comma_nonempty rest).
  by destruct (split_comma rest).
Qed.

Lemma accepted_spec (s : string) :
  valid (validateBase64Image s) = true
  ↔ ∃ ty rest, ty ∈ image_types
               ∧ s = data_uri_prefix ty +:+ rest
               ∧ Z.of_nat (String.length (measured rest)) ≤ 69905066.
Proof.
  destruct (base64Regex_test s) eqn:Ht.
  - apply regex_test_spec in Ht as (ty & rest & Hty & ->).
    rewrite (validate_header ty rest Hty). unfold exceeds_max, MAX_SIZE_MB.
    destruct (Z.ltb_spec (50 * 4 * (1024 * 1024))
                (Z.of_nat (String.length (measured rest)) * 3)) as [Hbig | Hok].
    + split; [done |].
      intros (ty' & rest' & Hty' & Heq & Hlen). exfalso.
      assert (measured rest' = measured rest) as Hm.
      { pose proof (header_split ty rest Hty) as H1.
        pose proof (header_split ty' rest' Hty') as H2.
        rewrite Heq, H2 in H1. unfold measured. by injection H1 as _ ->. }
      rewrite Hm in Hlen. lia.
    + split; [| done]. intros _.
      exists ty, rest. split; [done |]. split; [done | lia].
  - split.
    + unfold validateBase64Image. rewrite Ht. by destruct (Js.truthy s).
    + intros (ty & rest & Hty & -> & _).
      assert (base64Regex_test (data_uri_prefix ty +:+ rest) = true)
        by (apply regex_test_spec; by exists ty, rest).
      congruence.
Qed.

Lemma rejected_with_message (s : string) :
  valid (validateBase64Image s) = false →
  ∃ msg, validateBase64Image s = reject msg.
Proof.
  unfold validateBase64Image.
  destruct (negb (Js.truthy s)); [by eexists |].
  destruct (negb (base64Regex_test s)); [by eexists |].
  destruct (exceeds_max _); [by eexists | done].
Qed.


Lemma measured_app (rest junk : string) :
  measured (rest +:+ String "," junk) = measured rest.
Proof.
  induction rest as [| c rest IH]; [done |].
  change (String c rest +:+ String "," junk)
    with (String c (rest +:+ String "," junk)).
  by rewrite !measured_cons, IH.
Qed.

Lemma append_assoc (a b c : string) : (a +:+ b) +:+ c = a +:+ (b +:+ c).
Proof.
  induction a as [| x a IH]; [done |].
  change (String x ((a +:+ b) +:+ c) = String x (a +:+ b +:+ c)).
  by rewrite IH.
Qed.

(** X18: the size check measures only the data between the header and
    the next comma.  Whatever follows a further comma is not counted:
    an accepted image string stays accepted when a comma and any text,
    of any length, are appended to it. *)
Theorem text_after_comma_is_not_measured (s junk : string) :
  valid (validateBase64Image s) = true →
  valid (validateBase64Image (s +:+ String "," junk)) = true.
Proof.
  intros Hs. apply accepted_spec in Hs as (ty & rest & Hty & -> & Hlen).
  apply accepted_spec. exists ty, (rest +:+ String "," junk).
  split; [done |]. split; [by rewrite append_assoc |].
  by rewrite measured_app.
Qed.

(** *** Arrays of images *)

Lemma validate_from_spec (i : nat) (images : list string) :
  (Forall (λ image, valid (validateBase64Image image) = true) images
   ∧ validate_from i images = accept)
  ∨ ∃ pre image post msg,
      images = pre ++ image :: post
      ∧ Forall (λ image, valid (validateBase64Image image) = true) pre
      ∧ validateBase64Image image = reject msg
      ∧ validate_from i images
        = reject ("Image " +:+ pretty (i + length pre + 1)%nat +:+ ": " +:+ msg).
Proof.
  revert i. induction images as [| image images IH]; intros i; [by left |].
  cbn [validate_from].
  destruct (valid (validateBase64Image image)) eqn:Hv; cbn [negb].
  - destruct (IH (S i)) as [[Hall Hrun] | (pre & x & post & msg & -> & Hpre & Hx & Hrun)].
    + left. split; [by constructor | done].
    + right. exists (image :: pre), x, post, msg.
      split; [done |]. split; [by constructor |]. split; [done |].
      rewrite Hrun. simpl. do 4 f_equal. lia.
  - right. destruct (rejected_with_message image Hv) as [msg Hmsg].
    exists [], image, images, msg. split; [done |]. split; [done |].
    split; [done |]. rewrite Hmsg. simpl. do 4 f_equal. lia.
Qed.

(** X19: an array of images is accepted exactly when each image is (the
    empty array is); otherwise the error names the position, counted
    from 1, of the first image that is rejected, followed by that
    image's own error. *)
Theorem images_accepted_iff (images : list string) :
  (valid (validateBase64Images images) = true
   ↔ Forall (λ image, valid (validateBase64Image image) = true) images)
  ∧ (valid (validateBase64Images images) = false →
     ∃ pre image post msg,
       images = pre ++ image :: post
       ∧ Forall (λ image, valid (validateBase64Image image) = true) pre
       ∧ validateBase64Image image = reject msg
       ∧ error (validateBase64Images images)
         = Some ("Image " +:+ pretty (length pre + 1)%nat +:+ ": " +:+ msg)).
Proof.
  unfold validateBase64Images.
  destruct (validate_from_spec 0 images)
    as [[Hall ->] | (pre & image & post & msg & Himgs & Hpre & Himg & ->)].
  - split; [done |]. done.
  - split.
    + split; [done |]. intros Hall. rewrite Himgs in Hall.
      apply Forall_app in Hall as [_ Hall].
      inversion Hall as [| ? ? Hv _]; subst. by rewrite Himg in Hv.
    + intros _. by exists pre, image, post, msg.
Qed.

End ImageValidatorFacts.


(** X18 at work: the same PNG with a tail after a comma. *)
Lemma text_after_comma_is_not_measured_witness :
  ImageValidator.valid
    (ImageValidator.validateBase64Image
       ("data:image/png;base64,iVBORw0KGgo=" +:+ String "," "anything at all"))
  = true.
Proof.
  apply (text_after_comma_is_not_measured "data:image/png;base64,iVBORw0KGgo="
           "anything at all").
  reflexivity.
Defined.

(** X19 at work: the second of three images is a plain URL. *)
Lemma images_accepted_iff_witness :
  ∃ pre image post msg,
    ["data:image/png;base64,iVBORw0KGgo="; "http://x/y.png";
     "data:image/gif;base64,R0lGOD"] = pre ++ image :: post
    ∧ Forall (λ image,
                ImageValidator.valid (ImageValidator.validateBase64Image image)
                = true) pre
    ∧ ImageValidator.validateBase64Image image = ImageValidator.reject msg
    ∧ ImageValidator.error
        (ImageValidator.validateBase64Images
           ["data:image/png;base64,iVBORw0KGgo="; "http://x/y.png";
            "data:image/gif;base64,R0lGOD"])
      = Some ("Image " +:+ pretty (length pre + 1)%nat +:+ ": " +:+ msg).
Proof.
  apply (proj2 (images_accepted_iff
                  ["data:image/png;base64,iVBORw0KGgo="; "http://x/y.png";
                   "data:image/gif;base64,R0lGOD"])).
  vm_compute. reflexivity.
Defined.

(** ** The notification service: the admins *)

Section NotificationServiceFacts.

Context (E : Env).

Lemma batch_fault_None (rows : list Notification) :
  batch_fault E rows = None ↔ ∀ row, row ∈ rows → notification_fault E row = None.
Proof.
  unfold batch_fault. induction rows as [| n rows IH]; simpl.
  - split; [| done]. intros _ row Hrow. inversion Hrow.
  - destruct (notification_fault E n) as [e |] eqn:Hn; simpl.
    + split; [done |]. intros Hall. rewrite <- Hn. apply Hall. left.
    + rewrite IH. split.
      * intros Hall row Hrow. apply elem_of_cons in Hrow as [-> | Hrow];
          [done | by apply Hall].
      * intros Hall row Hrow. apply Hall. by right.
Qed.

Lemma admin_ids_NoDup (s : Store) : NoDup (admin_ids s).
Proof. apply NoDup_fst_map_to_list. Qed.

Lemma admin_ids_elem (s : Store) (id : string) :
  id ∈ admin_ids s ↔ is_Some (admins s !! id).
Proof.
  unfold admin_ids. rewrite list_elem_of_fmap. split.
  - intros ([k a] & -> & Hin). apply elem_of_map_to_list in Hin. by exists a.
  - intros [a Ha]. exists (id, a). split; [done |]. by apply elem_of_map_to_list.
Qed.

(** X20: [notifyAllAdmins] never throws and answers nothing itself.
    The rows it hands to the database are one per admin account, each
    addressed to a different admin and to nobody else, all with the
    given type, title, message and link.  When the database takes them
    they are all added and their number is returned; when it refuses
    one of them, nothing is written and nothing is returned. *)
Theorem notifyAllAdmins_one_each (type title message link : string) (s : Store) :
  let rows :=
    map (λ adminId,
           {| n_userId := None; n_ownerId := None; n_adminId := Some adminId;
              n_type := type; n_title := title; n_message := message;
              n_link := link |}) (admin_ids s) in
  NoDup (admin_ids s)
  ∧ (∀ id, id ∈ admin_ids s ↔ is_Some (admins s !! id))
  ∧ length rows = size (admins s)
  ∧ ((∀ row, row ∈ rows → notification_fault E row = None) →
     notifyAllAdmins E type title message link s
     = (Next (Some (length rows)), set_notifications (λ ns, ns ++ rows) s))
  ∧ ((∃ row e, row ∈ rows ∧ notification_fault E row = Some e) →
     notifyAllAdmins E type title message link s = (Next None, s)).
Proof.
  intros rows.
  split; [apply admin_ids_NoDup |]. split; [apply admin_ids_elem |].
  split.
  { subst rows. rewrite length_map. unfold admin_ids.
    by rewrite length_fmap, length_map_to_list. }
  assert (notifyAllAdmins E type title message link s
          = match batch_fault E rows with
            | Some _ => (Next None, s)
            | None => (Next (Some (length rows)),
                       set_notifications (λ ns, ns ++ rows) s)
            end) as ->.
  { unfold notifyAllAdmins, try_catch, notification_createMany,
      mbind, action_bind, bind, read, ret.
    change (map (λ adminId, admin_notification adminId type title message link)
              (admin_ids s)) with rows.
    by destruct (batch_fault E rows). }
  split.
  - intros Hok. apply batch_fault_None in Hok. by rewrite Hok.
  - intros (row & e & Hrow & Hfault).
    destruct (batch_fault E rows) eqn:Hb; [done |].
    rewrite batch_fault_None in Hb. rewrite (Hb row Hrow) in Hfault.
    discriminate Hfault.
Qed.

(** ** Owner approval *)

Lemma notifyOwnerApproved_spec (id : string) (b : bool) (s : Store) :
  ∃ rows, notifyOwnerApproved E id b s
          = (Next tt, set_notifications (λ ns, ns ++ rows) s).
Proof.
  unfold notifyOwnerApproved, notifyOwner, try_catch, notification_create,
    mbind, action_bind, bind, ret.
  destruct (notification_fault E _).
  - exists []. unfold set_notifications. rewrite app_nil_r. by destruct s.
  - by eexists [_].
Qed.

(** X21: approving an owner that exists answers 200 whether or not the
    notification can be written, and from then on a request bearing
    that owner's token passes the owner gate and reaches the handler.
    Approving an owner that does not exist is answered 404 and writes
    nothing. *)
Theorem owner_approval_opens_gate (id : string) (s : Store) :
  (owners s !! id = None →
   conclude (put_admin_owners_approve E id) s
   = (inl {| status := 404; json := JError "Record not found" |}, s))
  ∧ (∀ ow, owners s !! id = Some ow →
     (conclude (put_admin_owners_approve E id) s).1
     = inr (200, ("Owner approved successfully", approved_owner_record ow))
     ∧ owners (conclude (put_admin_owners_approve E id) s).2
       = <[id := approved_owner_record ow]> (owners s)
     ∧ ∀ (handler : Identity → action Empty_set) (req : Request) t d,
         bears E req t d → d_role d = "owner" → d_id d = id →
         route E OwnerOnly handler req
           (conclude (put_admin_owners_approve E id) s).2
         = respond
             (handler {| user_id := id; user_email := o_email ow;
                         user_role := "owner" |})
             (conclude (put_admin_owners_approve E id) s).2).
Proof.
  split.
  - intros Ho. unfold conclude, put_admin_owners_approve, owner_update,
      mbind, action_bind, bind. by rewrite Ho.
  - intros ow Ho.
    assert (∃ rows,
              conclude (put_admin_owners_approve E id) s
              = (inr (200, ("Owner approved successfully", approved_owner_record ow)),
                 set_notifications (λ ns, ns ++ rows)
                   {| users := users s;
                      owners := <[id := approved_owner_record ow]> (owners s);
                      admins := admins s; shops := shops s;
                      products := products s; orders := orders s;
                      notifications := notifications s |}))
      as [rows ->].
    { unfold conclude, put_admin_owners_approve, owner_update, reply,
        mbind, action_bind, bind, ret. rewrite Ho.
      match goal with
      | |- context [notifyOwnerApproved E id true ?s'] =>
          destruct (notifyOwnerApproved_spec id true s') as [rows ->]
      end.
      by exists rows. }
    split; [done |]. split; [done |].
    intros handler req t d Hb Hrole Hid. rewrite route_unfold. simpl.
    unfold authenticateOwner, try_catch, mbind, action_bind, bind, read.
    rewrite (decode_bears E req t d _ Hb), Hrole, Hid. simpl.
    by rewrite lookup_insert_eq.
Qed.

End NotificationServiceFacts.

(** X20 at work: the shop has one admin, Root. *)
Lemma notifyAllAdmins_one_each_witness :
  notifyAllAdmins Demo.env "approval" "New Owner Registration" "hello"
    "/admin/owners" Demo.store
  = (Next (Some 1%nat),
     set_notifications
       (λ ns, ns ++ [ {| n_userId := None; n_ownerId := None;
                         n_adminId := Some "root"; n_type := "approval";
                         n_title := "New Owner Registration";
                         n_message := "hello"; n_link := "/admin/owners" |} ])
       Demo.store).
Proof.
  apply (proj1 (proj2 (proj2 (proj2
           (notifyAllAdmins_one_each Demo.env "approval" "New Owner Registration"
              "hello" "/admin/owners" Demo.store))))).
  intros row _. reflexivity.
Defined.

(** X21 at work: Root approves Oscar, whose request then goes through. *)
Lemma owner_approval_opens_gate_witness :
  let s1 := (conclude (put_admin_owners_approve Demo.env "oscar") Demo.store).2 in
  route Demo.env OwnerOnly (λ u, send 200 (JError (user_id u)))
    (Demo.bearer "tok-oscar") s1
  = ({| status := 200; json := JError "oscar" |}, s1).
Proof.
  destruct (proj2 (owner_approval_opens_gate Demo.env "oscar" Demo.store)
              {| o_email := "oscar@x"; o_businessName := "Oscar";
                 o_approved := false |} eq_refl) as (_ & _ & Hgate).
  apply (Hgate (λ u, send 200 (JError (user_id u))) (Demo.bearer "tok-oscar")
           "tok-oscar" {| d_id := "oscar"; d_email := "oscar@x"; d_role := "owner" |}).
  - repeat split; first [ reflexivity | discriminate ].
  - reflexivity.
  - reflexivity.
Defined.

(** ** Product routes *)

Section ProductRouteFacts.

Context (E : Env).

Lemma get_products_id_approved id p s :
  products s !! id = Some p → p_status p = "approved" →
  conclude (get_products_id id) s = (inr (200, (id, p)), s).
Proof.
  intros Hp Hst. unfold conclude, get_products_id, reply, read, send,
    mbind, action_bind, bind, mret, action_ret, ret.
  by rewrite Hp, Hst.
Qed.

Lemma get_products_id_hidden id s :
  (∀ p, products s !! id = Some p → p_status p ≠ "approved") →
  conclude (get_products_id id) s = (inl not_found_answer, s).
Proof.
  intros Hno. unfold conclude, get_products_id, reply, read, send,
    mbind, action_bind, bind.
  destruct (products s !! id) as [p |] eqn:Hp; [| done].
  specialize (Hno p eq_refl).
  by destruct (String.eqb_spec (p_status p) "approved").
Qed.

(** X22: the public product page shows a product if and only if it
    exists and its status is "approved"; any other identifier is
    answered 404 "Product not found".  The store is left as it is. *)
Theorem public_sees_only_approved (id : string) (s : Store) :
  (conclude (get_products_id id) s).2 = s
  ∧ (∀ p, products s !! id = Some p → p_status p = "approved" →
          (conclude (get_products_id id) s).1 = inr (200, (id, p)))
  ∧ ((∀ p, products s !! id = Some p → p_status p ≠ "approved") →
     (conclude (get_products_id id) s).1 = inl not_found_answer)
  ∧ (∀ answer, (conclude (get_products_id id) s).1 = inr answer →
       ∃ p, answer = (200, (id, p)) ∧ products s !! id = Some p
            ∧ p_status p = "approved").
Proof.
  split; [| split; [| split]].
  - unfold conclude, get_products_id, reply, read, send, mbind, action_bind, bind.
    destruct (products s !! id) as [p |]; [| done].
    by destruct (negb _).
  - intros p Hp Hst. by rewrite (get_products_id_approved id p s Hp Hst).
  - intros Hno. by rewrite (get_products_id_hidden id s Hno).
  - intros answer. unfold conclude, get_products_id, reply, read, send,
      mbind, action_bind, bind, mret, action_ret, ret.
    destruct (products s !! id) as [p |] eqn:Hp; [| done].
    destruct (String.eqb_spec (p_status p) "approved") as [Hst | Hst]; [| done].
    simpl. intros [= <-]. by exists p.
Qed.

Lemma announce_loop name shopName ids s :
  (∀ n, notification_fault E n = None) →
  for_of ids
    (λ _ adminId,
       notification_create E (pending_product_notification name shopName adminId);;
       ret tt) tt s
  = (Next tt,
     set_notifications
       (λ ns, ns ++ map (pending_product_notification name shopName) ids) s).
Proof.
  intros Hok. revert s. induction ids as [| a ids IH]; intros s.
  - simpl. unfold ret, set_notifications. rewrite app_nil_r. by destruct s.
  - cbn [for_of map]. unfold mbind, action_bind, bind at 1.
    unfold notification_create at 1. unfold bind at 1. rewrite Hok.
    unfold ret at 1. rewrite IH. unfold set_notifications. simpl.
    by rewrite <- app_assoc.
Qed.

Lemma admin_ids_nonempty (s : Store) : admins s ≠ ∅ → admin_ids s ≠ [].
Proof.
  intros Hne Hnil. apply Hne. apply map_to_list_empty_iff.
  unfold admin_ids in Hnil. by apply fmap_nil_inv in Hnil.
Qed.

Lemma post_products_announced u b s sh :
  shops s !! pb_shopId b = Some sh →
  shop_ownerId sh = user_id u →
  (∀ n, notification_fault E n = None) →
  conclude (post_products E u b) s
  = (inr (201, (fresh_string "product" (products s), new_product b)),
     set_notifications
       (λ ns, ns ++ map (pending_product_notification (pb_name b) (shop_name sh))
                      (admin_ids s))
       (set_products (insert (fresh_string "product" (products s)) (new_product b))
          s)).
Proof.
  intros Hsh Hown Hok.
  unfold conclude, post_products, read. unfold mbind, action_bind, bind at 1.
  rewrite Hsh, Hown, String.eqb_refl. simpl.
  unfold bind at 1. unfold product_create at 1.
  unfold bind at 1. unfold bind at 1.
  rewrite (announce_loop (pb_name b) (shop_name sh) _ _ Hok).
  done.
Qed.

(** X23: a product an owner adds to a shop of their own, its price and
    stock sent as numbers, is stored with the name, price and stock of
    the request and with status "pending",
    under an identifier no product had.  Every admin account gets one
    "New Product Pending Approval" notification, addressed to it and
    naming the product and the shop.  The public page answers 404 for
    the product until an admin approves it, and 200 from then on. *)
Theorem new_product_waits_for_approval (u : Identity) (b : ProductBody)
    (s : Store) (sh : Shop) :
  shops s !! pb_shopId b = Some sh →
  shop_ownerId sh = user_id u →
  (∀ n, notification_fault E n = None) →
  let id := fresh_string "product" (products s) in
  let s1 := (conclude (post_products E u b) s).2 in
  let s2 := (respond (put_admin_products_approve E id) s1).2 in
  ∃ adminIds : list string,
    NoDup adminIds
    ∧ (∀ adminId, adminId ∈ adminIds ↔ is_Some (admins s !! adminId))
    ∧ products s !! id = None
    ∧ (conclude (post_products E u b) s).1
      = inr (201, (id, {| p_name := pb_name b; p_price := pb_price b;
                          p_stock := pb_stock b; p_shopId := pb_shopId b;
                          p_status := "pending" |}))
    ∧ products s1
      = <[id := {| p_name := pb_name b; p_price := pb_price b;
                   p_stock := pb_stock b; p_shopId := pb_shopId b;
                   p_status := "pending" |}]> (products s)
    ∧ notifications s1
      = notifications s
        ++ map (λ adminId,
                  {| n_userId := None; n_ownerId := None;
                     n_adminId := Some adminId; n_type := "approval";
                     n_title := "New Product Pending Approval";
                     n_message :=
                       "A new product " +:+ String "034" (pb_name b)
                         +:+ String "034" " from shop "
                         +:+ String "034" (shop_name sh)
                         +:+ String "034" " is waiting for your approval.";
                     n_link := "/products" |}) adminIds
    ∧ conclude (get_products_id id) s1
      = (inl {| status := 404; json := JError "Product not found" |}, s1)
    ∧ (respond (put_admin_products_approve E id) s1).1
      = {| status := 200;
           json := JProduct "Product approved successfully" id "approved" |}
    ∧ conclude (get_products_id id) s2
      = (inr (200, (id, {| p_name := pb_name b; p_price := pb_price b;
                           p_stock := pb_stock b; p_shopId := pb_shopId b;
                           p_status := "approved" |})), s2).
Proof.
  intros Hsh Hown Hok id s1 s2. subst s2 s1.
  exists (admin_ids s).
  split; [apply admin_ids_NoDup |]. split; [apply admin_ids_elem |].
  rewrite (post_products_announced u b s sh Hsh Hown Hok). fold id. simpl.
  split; [apply fresh_string_fresh |].
  split; [done |]. split; [done |]. split.
  { f_equal. apply map_ext. intros adminId.
    unfold pending_product_notification, admin_notification, quoted.
    f_equal. by rewrite !append_assoc. }
  split.
  { apply get_products_id_hidden. simpl. intros p.
    rewrite lookup_insert_eq. by intros [= <-]. }
  unfold put_admin_products_approve.
  erewrite moderate_found; cycle 1.
  { simpl. apply lookup_insert_eq. }
  { simpl. exact Hsh. }
  { apply Hok. }
  split; [done |].
  apply (get_products_id_approved id (with_product_status "approved" (new_product b)));
    [| done].
  simpl. apply lookup_insert_eq.
Qed.

(** X24: only the owner of a shop adds products to it.  A shop that
    does not exist is answered 404 "Shop not found", the shop of
    another owner 403 "You do not own this shop"; nothing is written in
    either case. *)
Theorem product_creation_needs_own_shop (u : Identity) (b : ProductBody)
    (s : Store) :
  (shops s !! pb_shopId b = None →
   conclude (post_products E u b) s
   = (inl {| status := 404; json := JError "Shop not found" |}, s))
  ∧ (∀ sh, shops s !! pb_shopId b = Some sh → shop_ownerId sh ≠ user_id u →
     conclude (post_products E u b) s
     = (inl {| status := 403; json := JError "You do not own this shop" |}, s)).
Proof.
  split.
  - intros Hsh. unfold conclude, post_products, read, mbind, action_bind, bind.
    by rewrite Hsh.
  - intros sh Hsh Hown.
    unfold conclude, post_products, read, mbind, action_bind, bind.
    rewrite Hsh. by destruct (String.eqb_spec (shop_ownerId sh) (user_id u)).
Qed.

(** X25: the product is stored before the admins are told.  If there is
    an admin and the database refuses the rows addressed to admins, the
    owner is answered with what the error handler makes of the refusal,
    and yet the product is in the store, with the data of the request
    and status "pending"; no notification is written. *)
Theorem product_stored_despite_error (u : Identity) (b : ProductBody)
    (s : Store) (sh : Shop) (e : JsError) :
  shops s !! pb_shopId b = Some sh →
  shop_ownerId sh = user_id u →
  admins s ≠ ∅ →
  (∀ n, n_adminId n ≠ None → notification_fault E n = Some e) →
  conclude (post_products E u b) s
  = (inl (errorHandler e),
     set_products
       (insert (fresh_string "product" (products s))
          {| p_name := pb_name b; p_price := pb_price b;
             p_stock := pb_stock b; p_shopId := pb_shopId b;
             p_status := "pending" |}) s).
Proof.
  intros Hsh Hown Hadm Hfault.
  apply admin_ids_nonempty in Hadm.
  unfold conclude, post_products, read. unfold mbind, action_bind, bind at 1.
  rewrite Hsh, Hown, String.eqb_refl. simpl.
  unfold bind at 1. unfold product_create at 1.
  unfold bind at 1. unfold bind at 1.
  change (admin_ids (set_products _ s)) with (admin_ids s).
  destruct (admin_ids s) as [| a ids]; [done |].
  cbn [for_of]. unfold mbind, action_bind, bind, notification_create.
  by rewrite Hfault.
Qed.

(** X26: an owner's edit of their product replaces the name, the price
    and the stock the request gives and keeps those it leaves out, and
    never touches the moderation status or the shop: an approved
    product stays on the public page, with the new data, without a new
    approval.  Another owner's edit is answered 403 and changes
    nothing. *)
Theorem product_edit_keeps_status (u : Identity) (id : string)
    (b : ProductUpdate) (s : Store) (p : Product) (sh : Shop) :
  products s !! id = Some p →
  shops s !! p_shopId p = Some sh →
  let edited :=
    {| p_name := match pu_name b with Some name => name | None => p_name p end;
       p_price := match pu_price b with Some price => price | None => p_price p end;
       p_stock := match pu_stock b with Some stock => stock | None => p_stock p end;
       p_shopId := p_shopId p;
       p_status := p_status p |} in
  let s1 := (conclude (put_products_id u id b) s).2 in
  (shop_ownerId sh = user_id u →
   conclude (put_products_id u id b) s
   = (inr (200, (id, edited)), set_products (insert id edited) s)
   ∧ (p_status p = "approved" →
      conclude (get_products_id id) s1 = (inr (200, (id, edited)), s1)))
  ∧ (shop_ownerId sh ≠ user_id u →
     conclude (put_products_id u id b) s
     = (inl {| status := 403; json := JError "You do not own this product" |}, s)).
Proof.
  intros Hp Hsh edited s1.
  assert (shop_ownerId sh = user_id u →
          conclude (put_products_id u id b) s
          = (inr (200, (id, edited)), set_products (insert id edited) s)) as Hrun.
  { intros Hown.
    unfold conclude, put_products_id, product_update, reply, read,
      mbind, action_bind, bind, mret, action_ret, ret.
    rewrite Hp, Hsh, Hown, String.eqb_refl. simpl. rewrite Hp.
    subst edited. unfold with_product_data.
    by destruct (pu_name b), (pu_price b), (pu_stock b). }
  split.
  - intros Hown. split; [by apply Hrun |].
    intros Hst. subst s1. rewrite (Hrun Hown). simpl.
    apply get_products_id_approved; [| done].
    simpl. apply lookup_insert_eq.
  - intros Hown.
    unfold conclude, put_products_id, read, mbind, action_bind, bind.
    rewrite Hp, Hsh.
    by destruct (String.eqb_spec (shop_ownerId sh) (user_id u)).
Qed.

End ProductRouteFacts.

(** X22 at work: the anvil is on show, the crate is not. *)
Lemma public_sees_only_approved_witness :
  (conclude (get_products_id "A") Demo.store).1
  = inr (200, ("A", Demo.product "Anvil" 10 5))
  ∧ (conclude (get_products_id "C") Demo.store).1 = inl not_found_answer.
Proof.
  split.
  - apply (proj1 (proj2 (public_sees_only_approved "A" Demo.store)));
      reflexivity.
  - apply (proj1 (proj2 (proj2 (public_sees_only_approved "C" Demo.store)))).
    intros p Hp. vm_compute in Hp. injection Hp as <-. discriminate.
Defined.

(** X23 at work: Olga lists a barrel; Root is told, and the barrel is
    on show only once Root has approved it. *)
Lemma new_product_waits_for_approval_witness :
  let s1 := (conclude (post_products Demo.env Fixtures4.olga Fixtures4.barrel)
               Demo.store).2 in
  let s2 := (respond (put_admin_products_approve Demo.env "product") s1).2 in
  (conclude (post_products Demo.env Fixtures4.olga Fixtures4.barrel) Demo.store).1
  = inr (201, ("product", {| p_name := "Barrel"; p_price := 12; p_stock := 4;
                             p_shopId := "shop1"; p_status := "pending" |}))
  ∧ conclude (get_products_id "product") s1
    = (inl {| status := 404; json := JError "Product not found" |}, s1)
  ∧ conclude (get_products_id "product") s2
    = (inr (200, ("product", {| p_name := "Barrel"; p_price := 12; p_stock := 4;
                                p_shopId := "shop1"; p_status := "approved" |})),
       s2).
Proof.
  destruct (new_product_waits_for_approval Demo.env Fixtures4.olga Fixtures4.barrel
              Demo.store {| shop_name := "Yard"; shop_ownerId := "olga" |}
              eq_refl eq_refl (λ n, eq_refl))
    as (adminIds & _ & _ & _ & Hanswer & _ & _ & Hhidden & _ & Hshown).
  split; [exact Hanswer |]. split; [exact Hhidden | exact Hshown].
Defined.

(** X24 at work: Oscar may not add to Olga's shop. *)
Lemma product_creation_needs_own_shop_witness :
  conclude
    (post_products Demo.env
       {| user_id := "oscar"; user_email := "oscar@x"; user_role := "owner" |}
       Fixtures4.barrel) Demo.store
  = (inl {| status := 403; json := JError "You do not own this shop" |}, Demo.store).
Proof.
  apply (proj2 (product_creation_needs_own_shop Demo.env
                  {| user_id := "oscar"; user_email := "oscar@x";
                     user_role := "owner" |} Fixtures4.barrel Demo.store)
           {| shop_name := "Yard"; shop_ownerId := "olga" |}).
  - reflexivity.
  - discriminate.
Defined.

(** X25 at work: the database is down for notifications. *)
Lemma product_stored_despite_error_witness :
  conclude (post_products Demo.env_failing Fixtures4.olga Fixtures4.barrel)
    Demo.store
  = (inl {| status := 500; json := JError "Can't reach database server" |},
     set_products
       (insert "product"
          {| p_name := "Barrel"; p_price := 12; p_stock := 4;
             p_shopId := "shop1"; p_status := "pending" |}) Demo.store).
Proof.
  apply (product_stored_despite_error Demo.env_failing Fixtures4.olga
           Fixtures4.barrel Demo.store
           {| shop_name := "Yard"; shop_ownerId := "olga" |} Demo.connection_lost).
  - reflexivity.
  - reflexivity.
  - intros H. apply (f_equal (λ m : gmap string Admin, m !! "root")) in H.
    vm_compute in H. discriminate H.
  - reflexivity.
Defined.

(** X26 at work: Olga lowers the price of the anvil to 8. *)
Lemma product_edit_keeps_status_witness :
  let s1 := (conclude (put_products_id Fixtures4.olga "A" Fixtures4.cheaper)
               Demo.store).2 in
  conclude (get_products_id "A") s1
  = (inr (200, ("A", {| p_name := "Anvil"; p_price := 8; p_stock := 5;
                        p_shopId := "shop1"; p_status := "approved" |})), s1).
Proof.
  destruct (product_edit_keeps_status Fixtures4.olga "A" Fixtures4.cheaper Demo.store
              (Demo.product "Anvil" 10 5)
              {| shop_name := "Yard"; shop_ownerId := "olga" |}
              eq_refl eq_refl) as [Hown _].
  destruct (Hown eq_refl) as (_ & Hshown).
  exact (Hshown eq_refl).
Defined.

(** ** Reviews *)

Section ReviewFacts.

Lemma findFirst_Some {A} (P : string * A → Prop) `{!∀ row, Decision (P row)}
    (table : gmap string A) (row : string * A) :
  findFirst P table = Some row → table !! row.1 = Some row.2 ∧ P row.
Proof.
  unfold findFirst. destruct (list_find P (map_to_list table)) as [[i x] |] eqn:Hf;
    [| done].
  simpl. intros [= <-]. apply list_find_Some in Hf as (Hi & HP & _).
  split; [| done]. apply elem_of_map_to_list.
  destruct x as [k a]. by apply list_elem_of_lookup_2 in Hi.
Qed.

Lemma findFirst_None {A} (P : string * A → Prop) `{!∀ row, Decision (P row)}
    (table : gmap string A) :
  findFirst P table = None → ∀ k a, table !! k = Some a → ¬ P (k, a).
Proof.
  unfold findFirst. destruct (list_find P (map_to_list table)) as [[i x] |] eqn:Hf;
    [done |].
  intros _ k a Hk. apply list_find_None in Hf.
  rewrite Forall_forall in Hf. apply Hf. by apply elem_of_map_to_list.
Qed.

Lemma findFirst_is_Some {A} (P : string * A → Prop) `{!∀ row, Decision (P row)}
    (table : gmap string A) (k : string) (a : A) :
  table !! k = Some a → P (k, a) → is_Some (findFirst P table).
Proof.
  intros Hk HP. destruct (findFirst P table) as [row |] eqn:Hf; [done |].
  by destruct (findFirst_None P table Hf k a Hk).
Qed.

Lemma completed_with_bought (s : Store) (userId productId : string) :
  is_Some (findFirst (completed_with userId productId) (orders s))
  ↔ bought s userId productId.
Proof.
  split.
  - intros [[id o] Hf]. apply findFirst_Some in Hf as [Ho (Hu & Hst & Hex)].
    simpl in *. apply Exists_exists in Hex as (item & Hin & Hitem).
    by exists id, o, item.
  - intros (id & o & item & Ho & Hu & Hst & Hin & Hitem).
    apply (findFirst_is_Some _ _ id o Ho). repeat split; [done | done |].
    apply Exists_exists. by exists item.
Qed.

(** X27: a review is taken only for a product that exists and that the
    user bought: some completed order of theirs holds it.  A product
    that does not exist is answered 404, one not bought 403, and in
    both cases the reviews stay as they are. *)
Theorem review_needs_completed_order (u : Identity) (b : ReviewBody)
    (s : Store) (reviews : gmap string Review) :
  (∀ answer, (post_users_reviews u b s reviews).1 = inr answer →
     is_Some (products s !! rb_productId b)
     ∧ bought s (user_id u) (rb_productId b))
  ∧ (products s !! rb_productId b = None →
     post_users_reviews u b s reviews
     = (inl {| status := 404; json := JError "Product not found" |}, reviews))
  ∧ (is_Some (products s !! rb_productId b) →
     ¬ bought s (user_id u) (rb_productId b) →
     post_users_reviews u b s reviews
     = (inl {| status := 403;
               json := JError "You can only review products from completed orders" |},
        reviews))
  ∧ (is_Some (products s !! rb_productId b) →
     bought s (user_id u) (rb_productId b) →
     ∃ answer, (post_users_reviews u b s reviews).1 = inr answer
               ∧ rv_userId (ra_review answer.2) = user_id u
               ∧ rv_productId (ra_review answer.2) = rb_productId b
               ∧ rv_rating (ra_review answer.2) = rb_rating b
               ∧ (post_users_reviews u b s reviews).2 !! ra_id answer.2
                 = Some (ra_review answer.2)).
Proof.
  unfold post_users_reviews. split; [| split; [| split]].
  - intros answer.
    destruct (products s !! rb_productId b) as [p |]; [| done].
    destruct (findFirst (completed_with _ _) (orders s)) as [row |] eqn:Hf;
      [| done].
    intros _. split; [done |]. apply completed_with_bought. by rewrite Hf.
  - by intros ->.
  - intros [p ->] Hno.
    destruct (findFirst (completed_with _ _) (orders s)) as [row |] eqn:Hf;
      [| done].
    destruct Hno. apply completed_with_bought. by rewrite Hf.
  - intros [p ->] Hb. apply completed_with_bought in Hb as [row ->].
    destruct (findFirst (review_of _ _) reviews) as [[id r] |] eqn:Hf.
    + apply findFirst_Some in Hf as [_ [Hu Hp]]. simpl in *.
      eexists. split; [done |]. simpl. rewrite lookup_insert_eq. by repeat split.
    + eexists. split; [done |]. simpl. rewrite lookup_insert_eq. by repeat split.
Qed.

(** X28: a user's second review of a product replaces the first.  If no
    user has two reviews of one product before the request, none has
    after it; a user who has a review of the product is answered 200
    "Review updated" and that review gets the new rating, with no row
    added; a user who has none is answered 201 and one row is added
    under an identifier that was not in use. *)
Theorem second_review_replaces_first (u : Identity) (b : ReviewBody)
    (s : Store) (reviews : gmap string Review) :
  one_review_each reviews →
  one_review_each (post_users_reviews u b s reviews).2
  ∧ (∀ answer, (post_users_reviews u b s reviews).1 = inr answer →
     (∀ id r, reviews !! id = Some r → rv_userId r = user_id u →
              rv_productId r = rb_productId b →
              answer = (200, {| ra_id := id; ra_review := with_review_data b r;
                                ra_message := "Review updated" |})
              ∧ (post_users_reviews u b s reviews).2
                = <[id := with_review_data b r]> reviews
              ∧ size (post_users_reviews u b s reviews).2 = size reviews)
     ∧ ((∀ id r, reviews !! id = Some r →
                 ¬ (rv_userId r = user_id u ∧ rv_productId r = rb_productId b)) →
        answer.1 = 201
        ∧ reviews !! ra_id answer.2 = None
        ∧ (post_users_reviews u b s reviews).2
          = <[ra_id answer.2 := new_review u b]> reviews
        ∧ size (post_users_reviews u b s reviews).2 = S (size reviews))).
Proof.
  intros Huniq. unfold post_users_reviews.
  destruct (products s !! rb_productId b) as [p |]; [| by split].
  destruct (findFirst (completed_with _ _) (orders s)) as [row |]; [| by split].
  destruct (findFirst (review_of _ _) reviews) as [[id0 r0] |] eqn:Hf; simpl.
  - apply findFirst_Some in Hf as [Hr0 [Hu0 Hp0]]. simpl in *.
    split.
    + intros i j r r' Hi Hj Hu Hp.
      destruct (decide (i = id0)) as [-> | Hi0];
        destruct (decide (j = id0)) as [-> | Hj0]; [done | | |].
      * rewrite lookup_insert_eq in Hi. injection Hi as <-.
        rewrite lookup_insert_ne in Hj by done.
        by apply (Huniq id0 j r0 r').
      * rewrite lookup_insert_eq in Hj. injection Hj as <-.
        rewrite lookup_insert_ne in Hi by done.
        by apply (Huniq i id0 r r0).
      * rewrite lookup_insert_ne in Hi, Hj by done.
        by apply (Huniq i j r r').
    + intros answer [= <-]. split.
      * intros id r Hr Hu Hp.
        assert (id = id0) as ->.
        { apply (Huniq id id0 r r0); congruence. }
        assert (r = r0) as -> by congruence.
        split; [done |]. split; [done |].
        rewrite map_size_insert_Some; [done | by eexists].
      * intros Hnone. by destruct (Hnone id0 r0 Hr0).
  - pose proof (findFirst_None _ _ Hf) as Hnone.
    pose proof (fresh_string_fresh reviews "review") as Hfresh.
    split.
    + intros i j r r' Hi Hj Hu Hp.
      destruct (decide (i = fresh_string "review" reviews)) as [-> | Hi0];
        destruct (decide (j = fresh_string "review" reviews)) as [-> | Hj0];
        [done | | |].
      * rewrite lookup_insert_eq in Hi. injection Hi as <-.
        rewrite lookup_insert_ne in Hj by done.
        destruct (Hnone j r' Hj). by split.
      * rewrite lookup_insert_eq in Hj. injection Hj as <-.
        rewrite lookup_insert_ne in Hi by done.
        destruct (Hnone i r Hi). by split.
      * rewrite lookup_insert_ne in Hi, Hj by done.
        by apply (Huniq i j r r').
    + intros answer [= <-]. split.
      * intros id r Hr Hu Hp. destruct (Hnone id r Hr). by split.
      * intros _. simpl. split; [done |]. split; [done |]. split; [done |].
        by rewrite map_size_insert_None.
Qed.

End ReviewFacts.

(** X27 at work: Ann reviews the anvil she bought. *)
Lemma review_needs_completed_order_witness :
  ∃ answer,
    (post_users_reviews Demo.ann Fixtures5.praise Fixtures5.bought_anvils ∅).1
    = inr answer
    ∧ rv_rating (ra_review answer.2) = 5.
Proof.
  assert (is_Some (products Fixtures5.bought_anvils !! rb_productId Fixtures5.praise))
    as Hp.
  { vm_compute. by eexists. }
  assert (bought Fixtures5.bought_anvils (user_id Demo.ann)
            (rb_productId Fixtures5.praise)) as Hb.
  { exists "ord1", (Demo.anvils "completed" (Some "RCP-1")),
      {| oi_productId := "A"; oi_quantity := 2; oi_price := 10 |}.
    split; [vm_compute; reflexivity |].
    repeat split; first [ reflexivity | apply list_elem_of_here ]. }
  destruct (proj2 (proj2 (proj2
              (review_needs_completed_order Demo.ann Fixtures5.praise
                 Fixtures5.bought_anvils ∅))) Hp Hb)
    as (answer & Hrun & _ & _ & Hrating & _).
  exists answer. split; [exact Hrun | exact Hrating].
Defined.

(** X28 at work: Ann reviews the anvil a second time. *)
Lemma second_review_replaces_first_witness :
  let reviews :=
    (post_users_reviews Demo.ann Fixtures5.praise Fixtures5.bought_anvils ∅).2 in
  one_review_each
    (post_users_reviews Demo.ann Fixtures5.second_thoughts
       Fixtures5.bought_anvils reviews).2.
Proof.
  intros reviews.
  apply (second_review_replaces_first Demo.ann Fixtures5.second_thoughts
           Fixtures5.bought_anvils reviews).
  intros i j r r' Hi Hj _ _. subst reviews.
  change (post_users_reviews Demo.ann Fixtures5.praise Fixtures5.bought_anvils ∅).2
    with (<[fresh_string "review" (∅ : gmap string Review)
            := new_review Demo.ann Fixtures5.praise]> (∅ : gmap string Review))
    in Hi, Hj.
  apply lookup_insert_Some in Hi as [[<- _] | [_ Hi]]; [| done].
  by apply lookup_insert_Some in Hj as [[<- _] | [_ Hj]].
Defined.

(** ** User notification routes *)

Section InboxFacts.

Implicit Types (u : Identity) (inbox : Inbox).

Lemma dispatch_delete (path : list string) :
  dispatch notification_routes DELETE path
  = match path with
    | [x] => Some (DeleteNotification, [x])
    | _ => None
    end.
Proof.
  unfold dispatch, notification_routes.
  destruct path as [| x [| y rest]]; cbv -[String.eqb Js.toUpperCase]; try done.
  by destruct (String.eqb _ _).
Qed.

(** X29: the route that clears all of a user's notifications is never
    reached.  Whatever the method and the path, the router hands the
    request to another route; [DELETE /api/notifications/clear-all]
    goes to the route that deletes one notification, which looks for a
    notification whose identifier is "clear-all", answers 404 when
    there is none, and leaves every notification in place. *)
Theorem clear_all_is_shadowed (m : Method) (path : list string) u inbox :
  (∀ params, dispatch notification_routes m path ≠ Some (ClearAll, params))
  ∧ dispatch notification_routes DELETE ["clear-all"]
    = Some (DeleteNotification, ["clear-all"])
  ∧ (inbox !! "clear-all" = None →
     delete_notifications_id u "clear-all" inbox
     = (inl notification_not_found, inbox)).
Proof.
  split; [| split].
  - intros params. destruct m.
    + unfold dispatch, notification_routes.
      destruct path as [| x [| y [| z rest]]]; cbv -[String.eqb Js.toUpperCase]; try done;
        repeat (destruct (String.eqb _ _); cbv -[String.eqb Js.toUpperCase]; try done).
    + by unfold dispatch, notification_routes.
    + unfold dispatch, notification_routes.
      destruct path as [| x [| y [| z rest]]]; cbv -[String.eqb Js.toUpperCase]; try done;
        repeat (destruct (String.eqb _ _); cbv -[String.eqb Js.toUpperCase]; try done).
    + rewrite dispatch_delete. by destruct path as [| x [| y rest]].
  - by rewrite dispatch_delete.
  - intros Hnone. unfold delete_notifications_id. by rewrite Hnone.
Qed.

End InboxFacts.

(** X29 at work: Ann asks to clear her notifications and keeps them. *)
Lemma clear_all_is_shadowed_witness :
  delete_notifications_id Demo.ann "clear-all" Fixtures6.inbox
  = (inl notification_not_found, Fixtures6.inbox).
Proof.
  apply (proj2 (proj2 (clear_all_is_shadowed DELETE ["clear-all"] Demo.ann
                         Fixtures6.inbox))).
  vm_compute. reflexivity.
Defined.

(** ** Whose notifications the routes touch *)

Section InboxIsolation.

Implicit Types (u : Identity) (inbox : Inbox) (row : InboxRow).

Lemma addressed_or_not u row :
  bool_decide (n_userId (row_of row) ≠ Some (user_id u)) = false
  ↔ addressed_to (user_id u) row.
Proof.
  unfold addressed_to. rewrite bool_decide_eq_false. split.
  - intros H. by destruct (decide (n_userId (row_of row) = Some (user_id u))).
  - intros Heq H. by apply H.
Qed.

Lemma read_all_lookup u inbox k :
  (put_notifications_read_all u inbox).2 !! k
  = (λ row, if bool_decide (addressed_to (user_id u) row ∧ row_isRead row = false)
            then mark_read row else row) <$> inbox !! k.
Proof. unfold put_notifications_read_all. simpl. apply lookup_fmap. Qed.

(** X30: a user's notification routes act on that user's notifications
    only.  Marking as read, marking all as read, deleting and clearing
    leave every notification addressed to someone else (another user,
    an owner or an admin) in the table as it is; naming such a
    notification is answered 403 "Access denied".  On a notification of
    the caller, marking sets its read flag and deleting removes it, and
    after marking all as read the caller's unread count is 0. *)
Theorem inbox_routes_keep_others u (id : string) inbox :
  (∀ k row, inbox !! k = Some row → ¬ addressed_to (user_id u) row →
     (put_notifications_read u id inbox).2 !! k = Some row
     ∧ (put_notifications_read_all u inbox).2 !! k = Some row
     ∧ (delete_notifications_id u id inbox).2 !! k = Some row
     ∧ (delete_notifications_clear_all u inbox).2 !! k = Some row)
  ∧ (∀ row, inbox !! id = Some row → ¬ addressed_to (user_id u) row →
     put_notifications_read u id inbox = (inl access_denied, inbox)
     ∧ delete_notifications_id u id inbox = (inl access_denied, inbox))
  ∧ (∀ row, inbox !! id = Some row → addressed_to (user_id u) row →
     put_notifications_read u id inbox
     = (inr (200, INotification id (mark_read row)), <[id := mark_read row]> inbox)
     ∧ delete_notifications_id u id inbox
       = (inr (200, IMessage "Notification deleted"), delete id inbox))
  ∧ (get_notifications_unread_count u (put_notifications_read_all u inbox).2).1
    = inr (200, IUnreadCount 0)
  ∧ (∀ k row, (delete_notifications_clear_all u inbox).2 !! k = Some row →
     inbox !! k = Some row ∧ ¬ addressed_to (user_id u) row).
Proof.
  assert (∀ row, inbox !! id = Some row → ¬ addressed_to (user_id u) row →
            put_notifications_read u id inbox = (inl access_denied, inbox)
            ∧ delete_notifications_id u id inbox = (inl access_denied, inbox))
    as Hdenied.
  { intros row Hrow Hno.
    unfold put_notifications_read, delete_notifications_id. rewrite Hrow.
    rewrite bool_decide_eq_true_2; [done |].
    intros Heq. by apply Hno. }
  assert (∀ row, inbox !! id = Some row → addressed_to (user_id u) row →
            put_notifications_read u id inbox
            = (inr (200, INotification id (mark_read row)),
               <[id := mark_read row]> inbox)
            ∧ delete_notifications_id u id inbox
              = (inr (200, IMessage "Notification deleted"), delete id inbox))
    as Hown.
  { intros row Hrow Hyes.
    unfold put_notifications_read, delete_notifications_id. rewrite Hrow.
    apply addressed_or_not in Hyes. by rewrite Hyes. }
  split; [| split; [exact Hdenied | split; [exact Hown | split]]].
  - intros k row Hk Hno. split; [| split; [| split]].
    + destruct (inbox !! id) as [target |] eqn:Hid;
        [| unfold put_notifications_read; by rewrite Hid].
      destruct (decide (addressed_to (user_id u) target)) as [Hyes | Hnot].
      * rewrite (proj1 (Hown target eq_refl Hyes)). simpl.
        rewrite lookup_insert_ne; [done |]. intros ->. congruence.
      * by rewrite (proj1 (Hdenied target eq_refl Hnot)).
    + rewrite read_all_lookup, Hk. simpl.
      rewrite bool_decide_eq_false_2; [done |]. by intros [Hyes _].
    + destruct (inbox !! id) as [target |] eqn:Hid;
        [| unfold delete_notifications_id; by rewrite Hid].
      destruct (decide (addressed_to (user_id u) target)) as [Hyes | Hnot].
      * rewrite (proj2 (Hown target eq_refl Hyes)). simpl.
        rewrite lookup_delete_ne; [done |]. intros ->. congruence.
      * by rewrite (proj2 (Hdenied target eq_refl Hnot)).
    + unfold delete_notifications_clear_all. simpl.
      by apply map_lookup_filter_Some.
  - unfold get_notifications_unread_count. simpl. do 3 f_equal.
    apply map_size_empty_iff, map_empty_filter.
    intros k row Hk [Hyes Hunread]. simpl in *.
    apply lookup_fmap_Some in Hk as (row0 & <- & _).
    case_bool_decide as Hcase; [done |].
    apply Hcase. by split.
  - intros k row Hk. unfold delete_notifications_clear_all in Hk. simpl in Hk.
    by apply map_lookup_filter_Some in Hk.
Qed.

End InboxIsolation.

(** X30 at work: Ann may not delete Bob's notification. *)
Lemma inbox_routes_keep_others_witness :
  delete_notifications_id Demo.ann "n3" Fixtures6.inbox
  = (inl access_denied, Fixtures6.inbox).
Proof.
  apply (proj1 (proj2 (inbox_routes_keep_others Demo.ann "n3" Fixtures6.inbox))
           (Fixtures6.note "bob")).
  - vm_compute. reflexivity.
  - unfold addressed_to. simpl. discriminate.
Defined.

(** ** The trim sanitizer and the validation of an order *)

Section TrimFacts.

Implicit Types (s r w p : string).












End TrimFacts.

Section WireValidation.

Context (E : Env).








End WireValidation.

